(** * woolpert_example: polling and export-path resolution of Earth Engine tasks

    A shallow embedding of [src/woolpert_example.py]: the [TaskStatus]
    constants, the [TasksManager] class ([__init__], [poll],
    [get_export_destination]) and [export_im_collection].

    Python values are embedded as a small value type, mutable objects live
    in an explicit state (the manager object, a heap of mappings, the
    output log), and exceptions are an explicit outcome.  The Earth Engine
    client library, [random.uniform] and the text rendering of a mapping
    are not part of the program: they are Section variables.  Sleep
    lengths are exact rationals: the rounding of the float sum
    [backoff_factor ** retries + random.uniform(0, 1)] is not modelled. *)

From Stdlib Require Import ZArith QArith Lia String Ascii List Bool.
From stdpp Require Import base list strings.
Import ListNotations.
Local Open Scope string_scope.
Local Open Scope list_scope.

(** ** Python values *)

(** The values the program inspects: [None], strings and (nested)
    mappings.  A mapping keeps its insertion order, as a Python [dict]
    does, so it is an association list. *)
#[warnings="-register-all"]
Inductive pyval :=
| VNone
| VStr (s : string)
| VDict (d : list (string * pyval)).

Definition dict := list (string * pyval).

Module Dict.

(** [d.get(k)], first binding wins. *)
Fixpoint get (k : string) (d : dict) : option pyval :=
  match d with
  | [] => None
  | (k', v) :: d' => if String.eqb k k' then Some v else get k d'
  end.

(** [k in d] *)
Definition mem (k : string) (d : dict) : bool :=
  match get k d with Some _ => true | None => false end.

(** [d[k] = v]: an existing key keeps its position, a new key goes last. *)
Fixpoint set (k : string) (v : pyval) (d : dict) : dict :=
  match d with
  | [] => [(k, v)]
  | (k', v') :: d' =>
      if String.eqb k k' then (k, v) :: d' else (k', v') :: set k v d'
  end.

End Dict.

(** ** Strings *)

Module Str.

Fixpoint starts_with (p s : string) : bool :=
  match p, s with
  | EmptyString, _ => true
  | String a p', String b s' => Ascii.eqb a b && starts_with p' s'
  | String _ _, EmptyString => false
  end.

(** [p in s] for two strings: substring test. *)
Fixpoint contains (p s : string) : bool :=
  starts_with p s ||
  match s with
  | EmptyString => false
  | String _ s' => contains p s'
  end.

Definition lower_ascii (c : ascii) : ascii :=
  let n := nat_of_ascii c in
  if (65 <=? n)%nat && (n <=? 90)%nat then ascii_of_nat (n + 32) else c.

(** [s.lower()].  Strings are byte strings here: the letters A-Z are
    lowered, every other character is kept. *)
Fixpoint lower (s : string) : string :=
  match s with
  | EmptyString => EmptyString
  | String c s' => String (lower_ascii c) (lower s')
  end.

(** [s.replace(old, new)] for a one-character [old]. *)
Fixpoint replace (old : ascii) (new : string) (s : string) : string :=
  match s with
  | EmptyString => EmptyString
  | String c s' =>
      if Ascii.eqb c old then new +:+ replace old new s'
      else String c (replace old new s')
  end.

End Str.

(** ** Messages, exceptions, outcomes *)

(** The texts the program prints, logs or raises.  They are kept
    structured (the arguments of the f-string) rather than rendered. *)
Inductive message :=
| MsgRunningExports (running total : nat)  (* "Currently running export tasks: r / n" *)
| MsgTaskFailed (id : string)              (* "Task {id} failed" *)
| MsgPollingInterrupted (why : message)    (* "Polling interrupted: {str(e)}" *)
| MsgRetrying (sleep_time : Q)             (* "Retrying in {sleep_time:.2f} seconds..." *)
| MsgMaxRetries                            (* "Max retries reached. Aborting polling." *)
| MsgUnsupported (config : pyval)          (* "Unsupported export destination {config}" *)
| MsgExporting (idx : pyval)               (* "Exporting image {idx}..." *)
| MsgSleepLength                           (* "sleep length must be non-negative" *)
| MsgText (s : string).

(** Exceptions.  [ConnectionError] and [TimeoutError] stand for the two
    built-in classes and their subclasses; [OtherError] is any exception
    class the program does not name (for instance the client library's
    own). *)
Inductive exn :=
| ConnectionError (m : message)
| TimeoutError (m : message)
| TypeError
| KeyError (key : string)
| AttributeError
| ValueError (m : message)
| OtherError (class : string) (m : message).

(** [except (ConnectionError, TimeoutError)] *)
Definition transient (e : exn) : bool :=
  match e with
  | ConnectionError _ | TimeoutError _ => true
  | _ => false
  end.

Definition exn_message (e : exn) : message :=
  match e with
  | ConnectionError m | TimeoutError m | ValueError m | OtherError _ m => m
  | KeyError k => MsgText k
  | TypeError | AttributeError => MsgText ""
  end.

(** How a call ends: it returns, it raises, or it does not come back
    (a remote call that never answers, a loop that is still running when
    the fuel of the model is spent). *)
Inductive outcome (A : Type) :=
| Ret (a : A)
| Raise (e : exn)
| Hang.
Arguments Ret {A} a.
Arguments Raise {A} e.
Arguments Hang {A}.

(** ** Operators on values *)

Module Py.

(** [key in container] *)
Definition contains (key : string) (container : pyval) : outcome bool :=
  match container with
  | VDict d => Ret (Dict.mem key d)
  | VStr s => Ret (Str.contains key s)
  | VNone => Raise TypeError
  end.

(** [container[key]] for a string key *)
Definition getitem (container : pyval) (key : string) : outcome pyval :=
  match container with
  | VDict d =>
      match Dict.get key d with
      | Some v => Ret v
      | None => Raise (KeyError key)
      end
  | VStr _ | VNone => Raise TypeError
  end.

(** [v.lower()] *)
Definition lower (v : pyval) : outcome string :=
  match v with
  | VStr s => Ret (Str.lower s)
  | VDict _ | VNone => Raise AttributeError
  end.

(** [v == s] for a string constant [s] *)
Definition eq_str (v : pyval) (s : string) : bool :=
  match v with
  | VStr t => String.eqb t s
  | VDict _ | VNone => false
  end.

End Py.

(** ** TaskStatus *)

Module TaskStatus.
Definition COMPLETED := "COMPLETED".
Definition FAILED := "FAILED".
Definition CANCEL_REQUESTED := "CANCEL_REQUESTED".
Definition CANCELLED := "CANCELLED".
End TaskStatus.

(** ** State and effects *)

Inductive level := ERROR | WARNING | INFO.

(** What the program does to the outside, in the order it does it. *)
Inductive event :=
| EvPrint (m : message)                  (* print(...) *)
| EvLog (lvl : level) (m : message)      (* logger.error / .warning / .info *)
| EvSleep (seconds : Q).                 (* time.sleep(seconds) *)

(** The world outside the manager object: a clock that advances by one
    tick at every interaction (remote call, random draw, sleep), the heap
    of mappings that are passed by reference, and the output so far,
    newest event first. *)
Record World := {
  clock : nat;
  heap : list dict;
  log : list event;
}.

(** A state-and-exception monad.  The state survives an exception. *)
Definition M (S A : Type) : Type := S -> outcome A * S.

Definition ret {S A} (a : A) : M S A := fun s => (Ret a, s).

Definition bind {S A B} (c : M S A) (k : A -> M S B) : M S B :=
  fun s =>
    match c s with
    | (Ret a, s') => k a s'
    | (Raise e, s') => (Raise e, s')
    | (Hang, s') => (Hang, s')
    end.

Definition raise {S A} (e : exn) : M S A := fun s => (Raise e, s).
Definition hang {S A} : M S A := fun s => (Hang, s).
Definition gets {S A} (f : S -> A) : M S A := fun s => (Ret (f s), s).
Definition modify {S} (f : S -> S) : M S unit := fun s => (Ret tt, f s).

(** Lifts a value-level result ([Py.getitem] and the like). *)
Definition lift {S A} (o : outcome A) : M S A := fun s => (o, s).

(** [try: body  except <classes>: handler] *)
Definition try_except {S A} (body : M S A) (caught : exn -> bool)
    (handler : exn -> M S A) : M S A :=
  fun s =>
    match body s with
    | (Raise e, s') => if caught e then handler e s' else (Raise e, s')
    | r => r
    end.

Notation "'let*' x ':=' c 'in' k" := (bind c (fun x => k))
  (at level 10, x name, c at level 100, k at level 200).
Notation "c ';;' k" := (bind c (fun _ => k))
  (at level 100, k at level 200, right associativity).

(** [for x in xs: body x] *)
Fixpoint for_each {S A} (xs : list A) (body : A -> M S unit) : M S unit :=
  match xs with
  | [] => ret tt
  | x :: xs' => body x ;; for_each xs' body
  end.

Module W.

Definition set_clock (n : nat) (w : World) : World :=
  {| clock := n; heap := heap w; log := log w |}.
Definition set_heap (h : list dict) (w : World) : World :=
  {| clock := clock w; heap := h; log := log w |}.
Definition set_log (l : list event) (w : World) : World :=
  {| clock := clock w; heap := heap w; log := l |}.

(** Reads the clock and advances it. *)
Definition tick : M World nat :=
  fun w => (Ret (clock w), set_clock (S (clock w)) w).

Definition emit (e : event) : M World unit :=
  modify (fun w => set_log (e :: log w) w).

(** A call whose answer depends on when it is made. *)
Definition remote {A} (answer : nat -> outcome A) : M World A :=
  let* now := tick in lift (answer now).

(** [time.sleep(seconds)]: a negative length is a [ValueError]. *)
Definition sleep (seconds : Q) : M World unit :=
  emit (EvSleep seconds) ;;
  tick ;;
  if Qle_bool 0 seconds then ret tt else raise (ValueError MsgSleepLength).

(** [d.copy()] on the mapping at [l]: a new heap cell with the same
    bindings.  A reference that holds no mapping has no [copy]. *)
Definition copy (l : nat) : M World nat :=
  let* h := gets heap in
  match h !! l with
  | Some d => modify (set_heap (h ++ [d])) ;; ret (length h)
  | None => raise AttributeError
  end.

(** Reads the mapping at [l]. *)
Definition deref (l : nat) : M World dict :=
  let* h := gets heap in
  match h !! l with
  | Some d => ret d
  | None => raise TypeError
  end.

(** [d[k] = v] on the mapping at [l], in place. *)
Definition setitem (l : nat) (k : string) (v : pyval) : M World unit :=
  let* d := deref l in
  modify (fun w => set_heap (<[l := Dict.set k v d]> (heap w)) w).

End W.

(** ** Tasks and the manager *)

(** A task handle of the client library, as far as the program uses it:
    its attributes, and what its remote calls answer at a given tick. *)
Record Task := {
  id : string;
  task_type : string;
  config : pyval;
  started : bool;
  active : nat -> outcome bool;     (* task.active() *)
  status : nat -> outcome pyval;    (* task.status() *)
  start : nat -> outcome unit;      (* task.start() *)
}.

(** The handle once [start()] has gone through. *)
Definition mark_started (t : Task) : Task :=
  {| id := id t; task_type := task_type t; config := config t;
     started := true;
     active := active t; status := status t; start := start t |}.

(** [ee.batch.Task.Type.EXPORT_IMAGE] *)
Definition EXPORT_IMAGE : string := "EXPORT_IMAGE".

Record Logger := { logger_name : string }.

Record TasksManager := {
  tasks : list Task;
  logger : option Logger;
  paths : list pyval;
}.

(** [TasksManager.__init__] *)
Definition __init__ (tasks : list Task) (logger : option Logger) : TasksManager :=
  {| tasks := tasks; logger := logger; paths := [] |}.

(** The state a method runs in: its [self] and the world. *)
Record Obj := {
  self : TasksManager;
  world : World;
}.

Module O.

Definition set_self (m : TasksManager) (o : Obj) : Obj :=
  {| self := m; world := world o |}.

(** Runs a world action from inside a method. *)
Definition in_world {A} (c : M World A) : M Obj A :=
  fun o =>
    let (r, w') := c (world o) in
    (r, {| self := self o; world := w' |}).

Definition print (m : message) : M Obj unit := in_world (W.emit (EvPrint m)).

(** [self.tasks = ts] *)
Definition set_tasks (ts : list Task) : M Obj unit :=
  modify (fun o => set_self {| tasks := ts; logger := logger (self o);
                               paths := paths (self o) |} o).

(** The object with [ps] added at the end of [self.paths]. *)
Definition extend (ps : list pyval) (o : Obj) : Obj :=
  set_self {| tasks := tasks (self o); logger := logger (self o);
              paths := paths (self o) ++ ps |} o.

(** [self.paths.append(p)] *)
Definition paths_append (p : pyval) : M Obj unit := modify (extend [p]).

(** [self.logger.<lvl>(m)]: with [self.logger] being [None] the
    attribute lookup fails. *)
Definition logger_call (lvl : level) (m : message) : M Obj unit :=
  let* lg := gets (fun o => logger (self o)) in
  match lg with
  | Some _ => in_world (W.emit (EvLog lvl m))
  | None => raise AttributeError
  end.

Definition call_active (t : Task) : M Obj bool := in_world (W.remote (active t)).
Definition call_status (t : Task) : M Obj pyval := in_world (W.remote (status t)).

End O.

(** ** The program *)

Inductive ImageCollection :=
| Collection (name : string)
| FilterMetadata (c : ImageCollection) (name operator : string) (value : pyval).

Inductive Image :=
| First (c : ImageCollection).

(** What one pass through the body of the polling loop decides: go round
    again with a retry counter, or leave [poll] with a value. *)
Inductive control :=
| Continue (retries : Z)
| Return (b : bool).

Section Program.

(** [random.uniform(0, 1)] when drawn at a given tick. *)
Variable uniform01 : nat -> Q.

(** [str(d)] of a mapping, as an f-string renders it. *)
Variable dict_str : dict -> string.

(** [c.aggregate_array(property).getInfo()] when asked at a given tick. *)
Variable aggregate_array_getInfo : ImageCollection -> string -> nat -> outcome (list pyval).

(** [ee.batch.Export.image.toCloudStorage(image, description, **kwargs)]:
    builds the task handle (no remote call). *)
Variable toCloudStorage : Image -> pyval -> dict -> outcome Task.

(** [f"{v}"] *)
Definition format (v : pyval) : string :=
  match v with
  | VStr s => s
  | VNone => "None"
  | VDict d => dict_str d
  end.

Definition random_uniform01 : M World Q :=
  let* now := W.tick in ret (uniform01 now).

(** *** TasksManager.poll *)

(** [any(task.active() for task in ts)]: stops at the first active task. *)
Fixpoint any_active (ts : list Task) : M Obj bool :=
  match ts with
  | [] => ret false
  | task :: ts' =>
      let* a := O.call_active task in
      if a then ret true else any_active ts'
  end.

(** [sum(1 for t in ts if t.task_type == EXPORT_IMAGE
                        and t.status()['state'] == 'RUNNING')] *)
Fixpoint running_exports (ts : list Task) : M Obj nat :=
  match ts with
  | [] => ret 0
  | t :: ts' =>
      let* hit :=
        (if String.eqb (task_type t) EXPORT_IMAGE then
           let* st := O.call_status t in
           let* state := lift (Py.getitem st "state") in
           ret (Py.eq_str state "RUNNING")
         else ret false) in
      let* n := running_exports ts' in
      ret (if hit then S n else n)
  end.

(** The [for] loop of lines 33-36: [Some false] is its [return False]. *)
Fixpoint check_failed (ts : list Task) : M Obj (option bool) :=
  match ts with
  | [] => ret None
  | task :: ts' =>
      let* st := O.call_status task in
      if Py.eq_str st TaskStatus.FAILED then
        O.logger_call ERROR (MsgTaskFailed (id task)) ;;
        ret (Some false)
      else check_failed ts'
  end.

(** The [try] block, lines 28-38. *)
Definition poll_try : M Obj control :=
  let* active_tasks := gets (fun o => tasks (self o)) in
  let* running := running_exports active_tasks in
  O.print (MsgRunningExports running (length active_tasks)) ;;
  let* ts := gets (fun o => tasks (self o)) in
  let* failed := check_failed ts in
  match failed with
  | Some b => ret (Return b)
  | None =>
      O.in_world (W.sleep (inject_Z 10)) ;;
      ret (Continue 0)
  end.

(** The [except] block, lines 40-48. *)
Definition poll_except (max_retries backoff_factor retries : Z) (e : exn)
  : M Obj control :=
  O.logger_call WARNING (MsgPollingInterrupted (exn_message e)) ;;
  if (retries <? max_retries)%Z then
    let retries := (retries + 1)%Z in
    let* jitter := O.in_world random_uniform01 in
    let sleep_time := (inject_Z (backoff_factor ^ retries) + jitter)%Q in
    O.logger_call INFO (MsgRetrying sleep_time) ;;
    O.in_world (W.sleep sleep_time) ;;
    ret (Continue retries)
  else
    O.logger_call ERROR MsgMaxRetries ;;
    ret (Return false).

(** One pass through the loop body. *)
Definition poll_body (max_retries backoff_factor retries : Z) : M Obj control :=
  try_except poll_try transient (poll_except max_retries backoff_factor retries).

(** [all(task.status() == TaskStatus.COMPLETED for task in ts)]: stops at
    the first task that is not. *)
Fixpoint all_completed (ts : list Task) : M Obj bool :=
  match ts with
  | [] => ret true
  | task :: ts' =>
      let* st := O.call_status task in
      if Py.eq_str st TaskStatus.COMPLETED then all_completed ts' else ret false
  end.

(** The [while] loop and the final [return].  [fuel] bounds the number
    of passes through the body. *)
Fixpoint poll_loop (fuel : nat) (max_retries backoff_factor retries : Z)
  : M Obj bool :=
  let* ts := gets (fun o => tasks (self o)) in
  let* busy := any_active ts in
  if busy then
    match fuel with
    | O => hang
    | S fuel' =>
        let* c := poll_body max_retries backoff_factor retries in
        match c with
        | Continue retries' => poll_loop fuel' max_retries backoff_factor retries'
        | Return b => ret b
        end
    end
  else
    let* ts := gets (fun o => tasks (self o)) in
    all_completed ts.

Definition poll (fuel : nat) (max_retries backoff_factor : Z) : M Obj bool :=
  poll_loop fuel max_retries backoff_factor 0.

(** [poll()] with its default arguments. *)
Definition poll_default (fuel : nat) : M Obj bool := poll fuel 5 2.

(** *** TasksManager.get_export_destination *)

(** The [else] branch, lines 70-74. *)
Definition unsupported (task : Task) : M Obj unit :=
  let e := ValueError (MsgUnsupported (config task)) in
  O.print (exn_message e) ;;
  let* lg := gets (fun o => logger (self o)) in
  (match lg with
   | Some _ => O.logger_call ERROR (exn_message e)
   | None => ret tt
   end) ;;
  raise e.

(** The body of the [for] loop, lines 55-74. *)
Definition export_destination (task : Task) : M Obj unit :=
  let* is_asset := lift (Py.contains "assetExportOptions" (config task)) in
  if is_asset then
    let* opts := lift (Py.getitem (config task) "assetExportOptions") in
    let* dest := lift (Py.getitem opts "earthEngineDestination") in
    let* name := lift (Py.getitem dest "name") in
    O.paths_append name
  else
    let* opts := lift (Py.getitem (config task) "fileExportOptions") in
    let* is_cloud := lift (Py.contains "cloudStorageDestination" opts) in
    if is_cloud then
      let* opts := lift (Py.getitem (config task) "fileExportOptions") in
      let* fmt := lift (Py.getitem opts "fileFormat") in
      let* lowered := lift (Py.lower fmt) in
      let file_format := Str.replace "_" "" lowered in
      let file_format :=
        if String.eqb file_format "geotiff" then "tif"
        else if String.eqb file_format "tfrecordimage" then "tfrecord"
        else file_format in
      let* opts := lift (Py.getitem (config task) "fileExportOptions") in
      let* dest := lift (Py.getitem opts "cloudStorageDestination") in
      let* prefix := lift (Py.getitem dest "filenamePrefix") in
      O.paths_append (VStr (format prefix +:+ "." +:+ file_format))
    else unsupported task.

Definition get_export_destination (tasks_arg : option (list Task)) : M Obj unit :=
  (match tasks_arg with
   | Some (t :: ts) => O.set_tasks (t :: ts)
   | Some [] | None => ret tt
   end) ;;
  let* ts := gets (fun o => tasks (self o)) in
  for_each ts export_destination.

(** *** export_im_collection *)

(** [task.start()] *)
Definition task_start (t : Task) : M World Task :=
  W.remote (start t) ;;
  ret (mark_started t).

(** The call [toCloudStorage(image=im, description=description, **kwargs)]:
    a key of [kwargs] that repeats a named argument is a [TypeError]. *)
Definition call_toCloudStorage (im : Image) (description : pyval) (kwargs : dict)
  : M World Task :=
  if Dict.mem "image" kwargs || Dict.mem "description" kwargs
  then raise TypeError
  else lift (toCloudStorage im description kwargs).

(** The body of the [for] loop, lines 82-95, followed by the remaining
    passes; [acc] is the local list [tasks]. *)
Fixpoint export_items (items : list pyval) (im_collection : ImageCollection)
    (description : pyval) (export_options : nat) (property : string)
    (acc : list Task) : M World (list Task) :=
  match items with
  | [] => ret acc
  | idx :: items' =>
      let im := First (FilterMetadata im_collection property "equals" idx) in
      let* _export_options := W.copy export_options in
      let* d := W.deref _export_options in
      (if negb (Dict.mem "fileNamePrefix" d) then
         W.setitem _export_options "fileNamePrefix" idx
       else
         let* d := W.deref _export_options in
         let* old := lift (Py.getitem (VDict d) "fileNamePrefix") in
         W.setitem _export_options "fileNamePrefix"
           (VStr (format old +:+ "/" +:+ format idx))) ;;
      let* kwargs := W.deref _export_options in
      let* task := call_toCloudStorage im description kwargs in
      let* task := task_start task in
      W.emit (EvPrint (MsgExporting idx)) ;;
      export_items items' im_collection description export_options property
        (acc ++ [task])
  end.

(** [export_options] is a reference into the heap: the caller keeps it. *)
Definition export_im_collection (im_collection : ImageCollection)
    (description : pyval) (export_options : nat) (property : string)
    (logger : option Logger) : M World TasksManager :=
  let* items := W.remote (aggregate_array_getInfo im_collection property) in
  let* ts := export_items items im_collection description export_options property [] in
  ret (__init__ ts logger).

End Program.

(** ** Sample tasks and worlds *)

Module Examples.

Definition w0 : World := {| clock := 0; heap := []; log := [] |}.

Definition a_logger : Logger := {| logger_name := "woolpert" |}.

(** A draw in the middle of the range. *)
Definition half (_ : nat) : Q := 1 # 2.

Definition render (_ : dict) : string := "{...}".

(** A handle with fixed answers. *)
Definition handle (id type : string) (config : pyval)
    (active : nat -> outcome bool) (status : nat -> outcome pyval) : Task :=
  {| id := id; task_type := type; config := config; started := true;
     active := active; status := status; start := fun _ => Ret tt |}.

Definition cloud_config (prefix format : string) : pyval :=
  VDict [("fileExportOptions",
          VDict [("fileFormat", VStr format);
                 ("cloudStorageDestination",
                  VDict [("bucket", VStr "crop-identification");
                         ("filenamePrefix", VStr prefix)])])].

Definition asset_config (name : string) : pyval :=
  VDict [("assetExportOptions",
          VDict [("earthEngineDestination", VDict [("name", VStr name)])])].

Definition drive_config : pyval :=
  VDict [("fileExportOptions",
          VDict [("fileFormat", VStr "GEO_TIFF");
                 ("driveDestination", VDict [("filenamePrefix", VStr "img")])])].

Definition feature_view_config : pyval :=
  VDict [("featureViewExportOptions",
          VDict [("featureViewDestination", VDict [("name", VStr "view")])])].

Definition finished (v : pyval) (config : pyval) : Task :=
  handle "T1" EXPORT_IMAGE config (fun _ => Ret false) (fun _ => Ret v).

(** A task that has ended and answers [status()] with the mapping
    [{'state': 'COMPLETED'}]. *)
Definition completed_task : Task :=
  finished (VDict [("state", VStr "COMPLETED")]) (cloud_config "woolpert_example/a" "GEO_TIFF").

Definition geotiff_task : Task :=
  finished (VStr "COMPLETED") (cloud_config "woolpert_example/a" "GEO_TIFF").
Definition asset_task : Task :=
  finished (VStr "COMPLETED") (asset_config "projects/p/assets/a").
Definition drive_task : Task :=
  finished (VStr "COMPLETED") drive_config.
Definition feature_view_task : Task :=
  finished (VStr "COMPLETED") feature_view_config.

(** A running task whose [status()] cannot reach the service. *)
Definition unreachable_task : Task :=
  handle "T2" EXPORT_IMAGE (cloud_config "woolpert_example/c" "GEO_TIFF")
    (fun _ => Ret true) (fun _ => Raise (ConnectionError (MsgText "connection reset"))).

(** A running task whose [active()] cannot reach the service. *)
Definition unreachable_active_task : Task :=
  handle "T3" EXPORT_IMAGE (cloud_config "woolpert_example/d" "GEO_TIFF")
    (fun _ => Raise (ConnectionError (MsgText "connection reset")))
    (fun _ => Ret (VDict [("state", VStr "RUNNING")])).

(** A running task that answers [status()] with a mapping, as line 30
    reads it. *)
Definition running_task : Task :=
  handle "T4" EXPORT_IMAGE (cloud_config "woolpert_example/e" "GEO_TIFF")
    (fun _ => Ret true) (fun _ => Ret (VDict [("state", VStr "RUNNING")])).

(** A collection of two images, and a client library that builds a
    handle from the keyword arguments it is given. *)
Definition s2 : ImageCollection := Collection "COPERNICUS/S2_SR_HARMONIZED".

Definition two_images (_ : ImageCollection) (_ : string) (_ : nat)
  : outcome (list pyval) :=
  Ret [VStr "20220103T100319"; VStr "20220108T100401"].

Definition build_task (_ : Image) (_ : pyval) (kwargs : dict) : outcome Task :=
  Ret {| id := ""; task_type := EXPORT_IMAGE;
         config :=
           VDict [("fileExportOptions",
                   VDict [("cloudStorageDestination",
                           VDict [("filenamePrefix",
                                   match Dict.get "fileNamePrefix" kwargs with
                                   | Some p => p
                                   | None => VNone
                                   end)])])];
         started := false;
         active := fun _ => Ret true;
         status := fun _ => Ret (VDict [("state", VStr "READY")]);
         start := fun _ => Ret tt |}.

Definition options : dict :=
  [("fileFormat", VStr "GeoTIFF");
   ("fileNamePrefix", VStr "woolpert_example");
   ("bucket", VStr "crop-identification")].

(** A world whose heap holds the caller's [export_options] at address 0. *)
Definition w_options : World := {| clock := 0; heap := [options]; log := [] |}.

Definition manager (ts : list Task) (lg : option Logger) : Obj :=
  {| self := __init__ ts lg; world := w0 |}.

End Examples.

(** * Properties *)

(** ** Reasoning about the monad *)

Lemma bind_inv {S A B} (c : M S A) (k : A -> M S B) s r s' :
  bind c k s = (r, s') ->
  (exists a s1, c s = (Ret a, s1) /\ k a s1 = (r, s')) \/
  (exists e, c s = (Raise e, s') /\ r = Raise e) \/
  (c s = (Hang, s') /\ r = Hang).
Proof.
  unfold bind. destruct (c s) as [[a|e|] s1]; intros H.
  - left. eauto.
  - right. left. inversion H; subst. eauto.
  - right. right. inversion H; subst. eauto.
Qed.

Lemma bind_ret_inv {S A B} (c : M S A) (k : A -> M S B) s b s' :
  bind c k s = (Ret b, s') ->
  exists a s1, c s = (Ret a, s1) /\ k a s1 = (Ret b, s').
Proof.
  intros H. apply bind_inv in H as [H | [(e & _ & H) | (_ & H)]];
    [exact H | discriminate | discriminate].
Qed.

Lemma bind_run {S A B} (c : M S A) (k : A -> M S B) s a s1 :
  c s = (Ret a, s1) -> bind c k s = k a s1.
Proof. intros H. unfold bind. now rewrite H. Qed.

Lemma bind_raise {S A B} (c : M S A) (k : A -> M S B) s e s1 :
  c s = (Raise e, s1) -> bind c k s = (Raise e, s1).
Proof. intros H. unfold bind. now rewrite H. Qed.

(** A frame is a relation between the states before and after that every
    step of a computation respects. *)
Section Frame.

Context {S : Type} (R : S -> S -> Prop).
Hypothesis R_refl : forall s, R s s.
Hypothesis R_trans : forall s1 s2 s3, R s1 s2 -> R s2 s3 -> R s1 s3.

Definition frame {A} (c : M S A) : Prop :=
  forall s r s', c s = (r, s') -> R s s'.

Lemma frame_ret {A} (a : A) : frame (ret a).
Proof. intros s r s' H. inversion H; subst. apply R_refl. Qed.

Lemma frame_raise {A} e : frame (@raise S A e).
Proof. intros s r s' H. inversion H; subst. apply R_refl. Qed.

Lemma frame_hang {A} : frame (@hang S A).
Proof. intros s r s' H. inversion H; subst. apply R_refl. Qed.

Lemma frame_gets {A} (f : S -> A) : frame (gets f).
Proof. intros s r s' H. inversion H; subst. apply R_refl. Qed.

Lemma frame_lift {A} (o : outcome A) : frame (@lift S A o).
Proof. intros s r s' H. inversion H; subst. apply R_refl. Qed.

Lemma frame_modify (f : S -> S) : (forall s, R s (f s)) -> frame (modify f).
Proof. intros Hf s r s' H. inversion H; subst. apply Hf. Qed.

Lemma frame_bind {A B} (c : M S A) (k : A -> M S B) :
  frame c -> (forall a, frame (k a)) -> frame (bind c k).
Proof.
  intros Hc Hk s r s' H.
  apply bind_inv in H as [(a & s1 & H1 & H2) | [(e & H1 & _) | (H1 & _)]].
  - eapply R_trans; [eapply Hc | eapply Hk]; eassumption.
  - eapply Hc; eassumption.
  - eapply Hc; eassumption.
Qed.

Lemma frame_try_except {A} (body : M S A) caught handler :
  frame body -> (forall e, frame (handler e)) -> frame (try_except body caught handler).
Proof.
  intros Hb Hh s r s' H. unfold try_except in H.
  destruct (body s) as [[a|e|] s1] eqn:E.
  - inversion H; subst. eapply Hb; eassumption.
  - destruct (caught e).
    + eapply R_trans; [eapply Hb | eapply Hh]; eassumption.
    + inversion H; subst. eapply Hb; eassumption.
  - inversion H; subst. eapply Hb; eassumption.
Qed.

Lemma frame_for_each {A} (xs : list A) (body : A -> M S unit) :
  (forall x, frame (body x)) -> frame (for_each xs body).
Proof.
  intros Hb. induction xs as [|x xs IH]; simpl.
  - apply frame_ret.
  - apply frame_bind; [apply Hb | intros _; exact IH].
Qed.

End Frame.

(** One step of a [frame] proof, by the shape of the code; [side] proves
    that the relation is reflexive or transitive. *)
Ltac frame_step side :=
  lazymatch goal with
  | |- frame _ (bind _ _) => apply frame_bind; [side | | intros ?]
  | |- frame _ (ret _) => apply frame_ret; side
  | |- frame _ (raise _) => apply frame_raise; side
  | |- frame _ hang => apply frame_hang; side
  | |- frame _ (gets _) => apply frame_gets; side
  | |- frame _ (lift _) => apply frame_lift; side
  | |- frame _ (if ?b then _ else _) => destruct b
  | |- frame _ (match ?x with _ => _ end) => destruct x
  end.

(** ** The manager object is only written by [get_export_destination] *)

Definition same_self (o o' : Obj) : Prop := self o' = self o.

Lemma same_self_refl o : same_self o o.
Proof. reflexivity. Qed.

Lemma same_self_trans o1 o2 o3 : same_self o1 o2 -> same_self o2 o3 -> same_self o1 o3.
Proof. unfold same_self. congruence. Qed.

Ltac same_self_side := first [exact same_self_refl | exact same_self_trans].

Lemma in_world_same_self {A} (c : M World A) : frame same_self (O.in_world c).
Proof.
  intros o r o' H. unfold O.in_world in H.
  destruct (c (world o)) as [r1 w1]. inversion H; subst. reflexivity.
Qed.

Lemma logger_call_same_self lvl m : frame same_self (O.logger_call lvl m).
Proof.
  unfold O.logger_call. frame_step same_self_side; [frame_step same_self_side|].
  frame_step same_self_side; [apply in_world_same_self | frame_step same_self_side].
Qed.

Ltac same_self_auto :=
  repeat first
    [ apply in_world_same_self
    | apply logger_call_same_self
    | assumption
    | frame_step same_self_side ].

Lemma any_active_same_self ts : frame same_self (any_active ts).
Proof. induction ts as [|t ts IH]; simpl; same_self_auto. Qed.

Lemma running_exports_same_self ts : frame same_self (running_exports ts).
Proof. induction ts as [|t ts IH]; simpl; same_self_auto. Qed.

Lemma check_failed_same_self ts : frame same_self (check_failed ts).
Proof. induction ts as [|t ts IH]; simpl; same_self_auto. Qed.

Lemma all_completed_same_self ts : frame same_self (all_completed ts).
Proof. induction ts as [|t ts IH]; simpl; same_self_auto. Qed.

Lemma poll_try_same_self : frame same_self poll_try.
Proof.
  unfold poll_try.
  repeat first [ apply running_exports_same_self | apply check_failed_same_self
               | progress same_self_auto ].
Qed.

Lemma poll_except_same_self u mr bf r e : frame same_self (poll_except u mr bf r e).
Proof. unfold poll_except. same_self_auto. Qed.

Lemma poll_loop_same_self u fuel : forall mr bf r, frame same_self (poll_loop u fuel mr bf r).
Proof.
  induction fuel as [|fuel IH]; intros mr bf r; simpl.
  - repeat first [ apply any_active_same_self | apply all_completed_same_self
                 | progress same_self_auto ].
  - repeat first [ apply any_active_same_self | apply all_completed_same_self
                 | apply IH
                 | apply frame_try_except; [exact same_self_trans | apply poll_try_same_self
                                           | intros ?; apply poll_except_same_self]
                 | progress same_self_auto ].
Qed.

(** [get_export_destination] only adds at the end of [paths]. *)
Definition grows (o o' : Obj) : Prop :=
  exists added, paths (self o') = paths (self o) ++ added.

Lemma grows_refl o : grows o o.
Proof. exists []. now rewrite app_nil_r. Qed.

Lemma grows_trans o1 o2 o3 : grows o1 o2 -> grows o2 o3 -> grows o1 o3.
Proof.
  intros [a Ha] [b Hb]. exists (a ++ b). rewrite Hb, Ha. now rewrite app_assoc.
Qed.

Lemma same_self_grows {A} (c : M Obj A) : frame same_self c -> frame grows c.
Proof.
  intros H o r o' E. apply H in E. unfold same_self in E.
  exists []. rewrite E. now rewrite app_nil_r.
Qed.

Ltac grows_side := first [exact grows_refl | exact grows_trans].

Lemma export_destination_grows ds t : frame grows (export_destination ds t).
Proof.
  unfold export_destination, O.paths_append, O.print.
  repeat first
    [ apply same_self_grows; first [apply in_world_same_self | apply logger_call_same_self]
    | apply frame_modify; intros o; eexists; reflexivity
    | progress unfold unsupported, O.print
    | frame_step grows_side ].
Qed.

Lemma get_export_destination_grows ds arg : frame grows (get_export_destination ds arg).
Proof.
  unfold get_export_destination, O.set_tasks.
  repeat first
    [ apply frame_for_each; [exact grows_refl | exact grows_trans
                            | intros ?; apply export_destination_grows]
    | apply frame_modify; intros o; exists []; simpl; now rewrite app_nil_r
    | frame_step grows_side ].
Qed.

(** C6.  The [paths] list of a manager starts empty ([__init__], also
    when the manager comes from [export_im_collection]); [poll] leaves it
    as it is, whatever way [poll] ends; [get_export_destination] only adds
    entries at its end, whatever way it ends. *)
Theorem paths_accumulate_after_polling :
  (forall ts lg, paths (__init__ ts lg) = []) /\
  (forall u fuel max_retries backoff_factor o,
      paths (self (snd (poll u fuel max_retries backoff_factor o))) = paths (self o)) /\
  (forall ds tasks_arg o,
      exists added,
        paths (self (snd (get_export_destination ds tasks_arg o)))
        = paths (self o) ++ added) /\
  (forall ds agg tcs c description export_options property lg w,
      match fst (export_im_collection ds agg tcs c description export_options property lg w) with
      | Ret m => paths m = []
      | Raise _ | Hang => True
      end).
Proof.
  repeat split.
  - intros u fuel mr bf o.
    destruct (poll u fuel mr bf o) as [r o'] eqn:E. simpl.
    apply poll_loop_same_self in E. unfold same_self in E. now rewrite E.
  - intros ds arg o.
    destruct (get_export_destination ds arg o) as [r o'] eqn:E. simpl.
    exact (get_export_destination_grows ds arg o r o' E).
  - intros ds agg tcs c description export_options property lg w.
    destruct (export_im_collection ds agg tcs c description export_options property lg w)
      as [[m|e|] w'] eqn:E; simpl; try exact I.
    unfold export_im_collection in E.
    apply bind_ret_inv in E as (items & w1 & _ & E).
    apply bind_ret_inv in E as (ts & w2 & _ & E).
    inversion E; subst. reflexivity.
Qed.

(** C8.  With no task at all, [poll] returns [True] at once: the state,
    and with it the clock and the output, is the one it started from, for
    every retry budget, backoff factor and fuel. *)
Theorem poll_no_tasks :
  forall u fuel max_retries backoff_factor lg ps w,
    poll u fuel max_retries backoff_factor
      {| self := {| tasks := []; logger := lg; paths := ps |}; world := w |}
    = (Ret true, {| self := {| tasks := []; logger := lg; paths := ps |}; world := w |}).
Proof. intros u [|fuel] mr bf lg ps w; reflexivity. Qed.

(** ** Export path resolution *)

Lemma lift_bind {S A B} (x : outcome A) (k : A -> M S B) s :
  bind (lift x) k s =
  match x with Ret a => k a s | Raise e => (Raise e, s) | Hang => (Hang, s) end.
Proof. unfold bind, lift. destruct x; reflexivity. Qed.

Lemma contains_not_hang k v : Py.contains k v <> Hang.
Proof. destruct v; discriminate. Qed.

Lemma getitem_not_hang v k : Py.getitem v k <> Hang.
Proof. destruct v; simpl; try discriminate. destruct (Dict.get k d); discriminate. Qed.

Lemma lower_not_hang v : Py.lower v <> Hang.
Proof. destruct v; discriminate. Qed.

Ltac no_hang E :=
  first [ apply contains_not_hang in E | apply getitem_not_hang in E
        | apply lower_not_hang in E ]; destruct E.

(** Runs the value-level steps at the head of a method body, by cases on
    what each of them gives. *)
Ltac pure_steps :=
  repeat
    (rewrite ?lift_bind; cbn beta;
     match goal with
     | |- context [match ?x with Ret _ => _ | Raise _ => _ | Hang => _ end] =>
         let E := fresh "E" in
         destruct x as [?|?|] eqn:E; [ | | try (exfalso; no_hang E) ]
     | |- context [if ?b then _ else _] => is_var b; destruct b
     end).

Lemma unsupported_run t o :
  unsupported t o =
  (Raise (ValueError (MsgUnsupported (config t))),
   {| self := self o;
      world := W.set_log
                 ((match logger (self o) with
                   | Some _ => [EvLog ERROR (MsgUnsupported (config t))]
                   | None => []
                   end) ++ EvPrint (MsgUnsupported (config t)) :: log (world o))
                 (world o) |}).
Proof.
  unfold unsupported, O.print, O.logger_call, O.in_world, W.emit,
    bind, gets, modify, ret, raise.
  cbn. destruct (logger (self o)) eqn:E; cbn; rewrite ?E; reflexivity.
Qed.

(** What the loop body does depends on the task alone: from any two
    states it appends the same path, or raises the same exception with
    [self] as it was. *)
Lemma export_destination_uniform ds t o o2 :
  match export_destination ds t o with
  | (Ret _, o') =>
      exists p, o' = O.extend [p] o /\
                export_destination ds t o2 = (Ret tt, O.extend [p] o2)
  | (Raise e, o') =>
      self o' = self o /\
      exists o2', export_destination ds t o2 = (Raise e, o2') /\ self o2' = self o2
  | (Hang, _) => False
  end.
Proof.
  unfold export_destination.
  pure_steps.
  all: try (eexists; split; reflexivity).
  all: try (split; [reflexivity | eexists; split; reflexivity]).
  rewrite !unsupported_run. split; [reflexivity | eexists; split; reflexivity].
Qed.

Lemma extend_nil o : O.extend [] o = o.
Proof. destruct o as [[ts lg ps] w]. unfold O.extend. simpl. now rewrite app_nil_r. Qed.

Lemma extend_extend ps1 ps2 o : O.extend ps2 (O.extend ps1 o) = O.extend (ps1 ++ ps2) o.
Proof. unfold O.extend. simpl. now rewrite app_assoc. Qed.


(** The whole loop, from any two states. *)
Lemma for_each_destination_uniform ds ts : forall o o2,
  match for_each ts (export_destination ds) o with
  | (Ret _, o') =>
      exists ps, length ps = length ts /\ o' = O.extend ps o /\
                 for_each ts (export_destination ds) o2 = (Ret tt, O.extend ps o2)
  | (Raise e, o') => True
  | (Hang, _) => False
  end.
Proof.
  induction ts as [|t ts IH]; intros o o2; simpl.
  - exists []. rewrite !extend_nil. auto.
  - unfold bind.
    pose proof (export_destination_uniform ds t o o2) as Ht.
    destruct (export_destination ds t o) as [[[]|e|] o1]; [ | exact I | exact Ht ].
    destruct Ht as (p & -> & Ht). rewrite Ht.
    specialize (IH (O.extend [p] o) (O.extend [p] o2)).
    destruct (for_each ts (export_destination ds) (O.extend [p] o)) as [[[]|e|] o3];
      [ | exact I | exact IH ].
    destruct IH as (ps & Hlen & -> & IH). rewrite IH.
    exists (p :: ps). rewrite !extend_extend. simpl. auto.
Qed.

(** X9.  An unsupported destination: without [assetExportOptions] and
    with [fileExportOptions] that hold no [cloudStorageDestination], the
    loop body prints the [ValueError], logs it once when there is a
    logger, and raises it; [self], and with it [paths], is as before. *)
Lemma export_destination_unsupported ds t opts o :
  Py.contains "assetExportOptions" (config t) = Ret false ->
  Py.getitem (config t) "fileExportOptions" = Ret opts ->
  Py.contains "cloudStorageDestination" opts = Ret false ->
  export_destination ds t o =
  (Raise (ValueError (MsgUnsupported (config t))),
   {| self := self o;
      world := W.set_log
                 ((match logger (self o) with
                   | Some _ => [EvLog ERROR (MsgUnsupported (config t))]
                   | None => []
                   end) ++ EvPrint (MsgUnsupported (config t)) :: log (world o))
                 (world o) |}).
Proof.
  intros H1 H2 H3. unfold export_destination.
  rewrite lift_bind, H1. cbn beta iota.
  rewrite lift_bind, H2. cbn beta iota.
  rewrite lift_bind, H3. cbn beta iota.
  apply unsupported_run.
Qed.





(** ** Where the code leaves the stated behaviour *)

(** C1.  A task that has ended and reports the state [COMPLETED], in the
    mapping that line 30 reads with [status()['state']]: [poll] compares
    the mapping itself with the string and returns [False]. *)
Theorem poll_completed_mapping :
  forall u fuel max_retries backoff_factor lg,
    poll u fuel max_retries backoff_factor
      (Examples.manager [Examples.completed_task] lg)
    = (Ret false,
       {| self := __init__ [Examples.completed_task] lg;
          world := {| clock := 2; heap := []; log := [] |} |}).
Proof. intros u [|fuel] mr bf lg; reflexivity. Qed.

(** C3.  A manager without a logger, as [__init__] builds it by default:
    the first transient error ends [poll] with an [AttributeError] from
    [self.logger.warning], whatever the retry budget. *)
Theorem poll_without_logger_raises :
  forall u fuel max_retries backoff_factor,
    poll u (S fuel) max_retries backoff_factor
      (Examples.manager [Examples.unreachable_task] None)
    = (Raise AttributeError,
       {| self := __init__ [Examples.unreachable_task] None;
          world := {| clock := 2; heap := []; log := [] |} |}).
Proof. intros u fuel mr bf; reflexivity. Qed.

(** A transient error of [task.active()] is raised in the loop
    condition, outside the [try] block: it leaves [poll] as it is. *)
Lemma poll_active_error_propagates :
  forall u fuel max_retries backoff_factor lg,
    poll u fuel max_retries backoff_factor
      (Examples.manager [Examples.unreachable_active_task] lg)
    = (Raise (ConnectionError (MsgText "connection reset")),
       {| self := __init__ [Examples.unreachable_active_task] lg;
          world := {| clock := 1; heap := []; log := [] |} |}).
Proof. intros u [|fuel] mr bf lg; reflexivity. Qed.

(** C5.  A config with neither [assetExportOptions] nor
    [fileExportOptions]: the test of the [elif] raises a [KeyError]
    before the [else] branch is reached; nothing is printed or logged. *)
Theorem get_export_destination_key_error :
  forall ds lg,
    get_export_destination ds None (Examples.manager [Examples.feature_view_task] lg)
    = (Raise (KeyError "fileExportOptions"),
       Examples.manager [Examples.feature_view_task] lg).
Proof. intros ds lg; reflexivity. Qed.

(** ** export_im_collection *)

(** The keyword arguments the loop body builds for one item from the
    caller's mapping [d]. *)
Definition item_options (ds : dict -> string) (d : dict) (idx : pyval) : dict :=
  match Dict.get "fileNamePrefix" d with
  | None => Dict.set "fileNamePrefix" idx d
  | Some old =>
      Dict.set "fileNamePrefix" (VStr (format ds old +:+ "/" +:+ format ds idx)) d
  end.

Lemma heap_lookup_fresh (h : list dict) d : (h ++ [d]) !! length h = Some d.
Proof. now apply list_lookup_middle. Qed.

Lemma heap_insert_fresh (h : list dict) d d' : <[length h := d']> (h ++ [d]) = h ++ [d'].
Proof.
  rewrite insert_app_r_alt by lia. now rewrite Nat.sub_diag.
Qed.

Lemma copy_run w l d :
  heap w !! l = Some d ->
  W.copy l w = (Ret (length (heap w)), W.set_heap (heap w ++ [d]) w).
Proof. intros H. unfold W.copy, bind, gets, modify, ret. cbn. now rewrite H. Qed.

Lemma copy_fail w l :
  heap w !! l = None -> W.copy l w = (Raise AttributeError, w).
Proof. intros H. unfold W.copy, bind, gets. cbn. now rewrite H. Qed.

Lemma deref_run w l d : heap w !! l = Some d -> W.deref l w = (Ret d, w).
Proof. intros H. unfold W.deref, bind, gets, ret. cbn. now rewrite H. Qed.

Lemma setitem_run w l k v d :
  heap w !! l = Some d ->
  W.setitem l k v w = (Ret tt, W.set_heap (<[l := Dict.set k v d]> (heap w)) w).
Proof.
  intros H. unfold W.setitem. erewrite bind_run by (apply deref_run; eassumption).
  reflexivity.
Qed.

Lemma export_items_cons ds tcs idx items c desc eo prop acc w d :
  heap w !! eo = Some d ->
  export_items ds tcs (idx :: items) c desc eo prop acc w =
  (let* task := call_toCloudStorage tcs (First (FilterMetadata c prop "equals" idx))
                  desc (item_options ds d idx) in
   let* task := task_start task in
   W.emit (EvPrint (MsgExporting idx)) ;;
   export_items ds tcs items c desc eo prop (acc ++ [task]))
    (W.set_heap (heap w ++ [item_options ds d idx]) w).
Proof.
  intros H. cbn [export_items].
  erewrite bind_run by (apply copy_run; eassumption).
  assert (Hfresh : heap (W.set_heap (heap w ++ [d]) w) !! length (heap w) = Some d)
    by apply heap_lookup_fresh.
  erewrite bind_run by (apply deref_run; exact Hfresh).
  unfold item_options, Dict.mem.
  destruct (Dict.get "fileNamePrefix" d) as [old|] eqn:Hold; cbn [negb].
  - erewrite bind_run.
    2:{ erewrite bind_run by (apply deref_run; exact Hfresh).
        rewrite lift_bind. cbn [Py.getitem]. rewrite Hold.
        apply setitem_run. exact Hfresh. }
    cbn [W.set_heap heap]. rewrite heap_insert_fresh.
    erewrite bind_run.
    2:{ apply deref_run. cbn. apply heap_lookup_fresh. }
    reflexivity.
  - erewrite bind_run by (apply setitem_run; exact Hfresh).
    cbn [W.set_heap heap]. rewrite heap_insert_fresh.
    erewrite bind_run.
    2:{ apply deref_run. cbn. apply heap_lookup_fresh. }
    reflexivity.
Qed.

(** The task the loop body adds for one item. *)
Definition exported (ds : dict -> string) (tcs : Image -> pyval -> dict -> outcome Task)
    (c : ImageCollection) (desc : pyval) (prop : string) (d : dict)
    (idx : pyval) (t : Task) : Prop :=
  exists t0 n,
    tcs (First (FilterMetadata c prop "equals" idx)) desc (item_options ds d idx) = Ret t0
    /\ start t0 n = Ret tt
    /\ t = mark_started t0.

Lemma call_toCloudStorage_inv tcs im desc kw w r w' :
  call_toCloudStorage tcs im desc kw w = (r, w') ->
  w' = w /\ forall t, r = Ret t -> tcs im desc kw = Ret t.
Proof.
  unfold call_toCloudStorage, raise, lift.
  destruct (Dict.mem "image" kw || Dict.mem "description" kw);
    intros H; inversion H; subst; split; auto; discriminate.
Qed.

Lemma task_start_inv t w r w' :
  task_start t w = (r, w') ->
  heap w' = heap w /\
  forall t', r = Ret t' -> t' = mark_started t /\ start t (clock w) = Ret tt.
Proof.
  unfold task_start, W.remote, W.tick, bind, lift, ret. cbn.
  destruct (start t (clock w)) as [[]|e|]; intros H; inversion H; subst;
    split; auto; intros t' Ht'; inversion Ht'; auto.
Qed.

Lemma export_items_spec ds tcs c desc eo prop d : forall items acc w r w',
  heap w !! eo = Some d ->
  export_items ds tcs items c desc eo prop acc w = (r, w') ->
  (exists new, heap w' = heap w ++ new) /\
  (forall ts, r = Ret ts ->
     exists created, ts = acc ++ created /\
                     Forall2 (exported ds tcs c desc prop d) items created).
Proof.
  induction items as [|idx items IH]; intros acc w r w' Hd H.
  - inversion H; subst. split.
    + exists []. now rewrite app_nil_r.
    + intros ts Hts. inversion Hts; subst. exists []. rewrite app_nil_r. auto.
  - rewrite (export_items_cons _ _ _ _ _ _ _ _ _ _ _ Hd) in H.
    set (w1 := W.set_heap (heap w ++ [item_options ds d idx]) w) in *.
    assert (Hheap1 : heap w1 = heap w ++ [item_options ds d idx]) by reflexivity.
    apply bind_inv in H as [(t0 & w2 & Hc & H) | [(e & Hc & ->) | (Hc & ->)]].
    2,3: apply call_toCloudStorage_inv in Hc as [-> _];
         (split; [eexists; exact Hheap1 | discriminate]).
    apply call_toCloudStorage_inv in Hc as [-> Hc]. specialize (Hc t0 eq_refl).
    apply bind_inv in H as [(t1 & w3 & Hs & H) | [(e & Hs & ->) | (Hs & ->)]].
    2,3: apply task_start_inv in Hs as [Hs _];
         (split; [eexists; rewrite Hs; exact Hheap1 | discriminate]).
    apply task_start_inv in Hs as [Hh3 Hs]. destruct (Hs t1 eq_refl) as [-> Hstart].
    apply bind_inv in H as [([] & w4 & He & H) | [(e & He & _) | (He & _)]];
      [ | discriminate He | discriminate He ].
    inversion He; subst w4. clear He.
    apply IH in H.
    2:{ cbn. rewrite Hh3, Hheap1. now apply lookup_app_l_Some. }
    destruct H as [[new Hnew] Hts]. split.
    + exists (item_options ds d idx :: new). rewrite Hnew. cbn.
      rewrite Hh3, Hheap1. now rewrite <- app_assoc.
    + intros ts ->. destruct (Hts _ eq_refl) as (created & -> & Hall).
      exists (mark_started t0 :: created). split.
      * now rewrite <- app_assoc.
      * constructor; [|exact Hall]. exists t0, (clock w1). auto.
Qed.

Lemma export_items_heap ds tcs c desc eo prop items acc w r w' :
  export_items ds tcs items c desc eo prop acc w = (r, w') ->
  (exists new, heap w' = heap w ++ new) /\ heap w' !! eo = heap w !! eo.
Proof.
  intros H. destruct (heap w !! eo) as [d|] eqn:Hd.
  - destruct (export_items_spec _ _ _ _ _ _ _ _ _ _ _ _ Hd H) as [[new Hnew] _].
    split; [eauto|]. rewrite Hnew. now apply lookup_app_l_Some.
  - assert (w' = w) as ->.
    { destruct items as [|idx items]; [now inversion H|].
      cbn [export_items] in H.
      erewrite bind_raise in H by (apply copy_fail; exact Hd). now inversion H. }
    split; [|exact Hd]. exists []. now rewrite app_nil_r.
Qed.

Lemma getInfo_inv {A} (answer : nat -> outcome A) w r w' :
  W.remote answer w = (r, w') ->
  heap w' = heap w /\ r = answer (clock w).
Proof.
  unfold W.remote, W.tick, bind, lift. cbn.
  destruct (answer (clock w)); intros H; inversion H; subst; auto.
Qed.

(** C10.  [export_im_collection] leaves the heap it was given as it is
    and only adds cells after it; in particular the mapping behind the
    caller's [export_options] reference is the same after the call as
    before, whatever way the call ends. *)
Theorem export_options_not_mutated :
  forall ds agg tcs c description export_options property lg w,
    let w' := snd (export_im_collection ds agg tcs c description export_options
                     property lg w) in
    (exists new, heap w' = heap w ++ new) /\
    heap w' !! export_options = heap w !! export_options.
Proof.
  intros ds agg tcs c desc eo prop lg w.
  destruct (export_im_collection ds agg tcs c desc eo prop lg w) as [r w'] eqn:E.
  cbn. unfold export_im_collection in E.
  apply bind_inv in E as [(items & w1 & Hi & E) | [(e & Hi & _) | (Hi & _)]].
  2,3: apply getInfo_inv in Hi as [-> _];
       (split; [exists []; now rewrite app_nil_r | reflexivity]).
  apply getInfo_inv in Hi as [Hh1 _].
  apply bind_inv in E as [(ts & w2 & He & E) | [(e & He & _) | (He & _)]].
  1: inversion E; subst w2.
  all: apply export_items_heap in He; rewrite Hh1 in He; exact He.
Qed.

(** C7.  When [export_im_collection] returns, the manager's task list
    runs parallel to the aggregated property array: for each item, in
    order, the handle that [toCloudStorage] built for the image selected
    by that item, with the item's keyword arguments, after its [start()]
    went through, and nothing else. *)
Theorem export_one_task_per_item :
  forall ds agg tcs c description export_options property lg w m w',
    export_im_collection ds agg tcs c description export_options property lg w
    = (Ret m, w') ->
    exists items,
      agg c property (clock w) = Ret items /\
      length (tasks m) = length items /\
      Forall2
        (fun idx t =>
           exists d, heap w !! export_options = Some d /\
                     exported ds tcs c description property d idx t)
        items (tasks m).
Proof.
  intros ds agg tcs c desc eo prop lg w m w' E.
  unfold export_im_collection in E.
  apply bind_ret_inv in E as (items & w1 & Hi & E).
  apply getInfo_inv in Hi as [Hh1 Hi].
  apply bind_ret_inv in E as (ts & w2 & He & E).
  inversion E; subst m w2. clear E. cbn [tasks __init__].
  exists items. split; [now symmetry|].
  destruct items as [|idx items].
  - inversion He; subst. split; [reflexivity | constructor].
  - destruct (heap w1 !! eo) as [d|] eqn:Hd.
    + destruct (export_items_spec _ _ _ _ _ _ _ _ _ _ _ _ Hd He) as [_ Hts].
      destruct (Hts _ eq_refl) as (created & -> & Hall). cbn [app].
      split; [symmetry; eapply Forall2_length; exact Hall|].
      eapply Forall2_impl; [exact Hall|].
      intros i t Hex. exists d. rewrite <- Hh1. auto.
    + cbn [export_items] in He.
      erewrite bind_raise in He by (apply copy_fail; exact Hd). discriminate He.
Qed.

(** ** The retry schedule of [poll] *)

(** The state after one more event. *)
Definition emitted (ev : event) (o : Obj) : Obj :=
  {| self := self o; world := W.set_log (ev :: log (world o)) (world o) |}.

Lemma logger_call_run lvl m o lg :
  logger (self o) = Some lg ->
  O.logger_call lvl m o = (Ret tt, emitted (EvLog lvl m) o).
Proof.
  intros H. unfold O.logger_call, bind, gets. cbv beta iota. rewrite H. reflexivity.
Qed.

Lemma logger_call_none lvl m o :
  logger (self o) = None -> O.logger_call lvl m o = (Raise AttributeError, o).
Proof.
  intros H. unfold O.logger_call, bind, gets. cbv beta iota. rewrite H. reflexivity.
Qed.

(** The [except] block, run with a logger. *)
Lemma poll_except_run u mr bf r e o lg :
  logger (self o) = Some lg ->
  poll_except u mr bf r e o =
  if (r <? mr)%Z then
    let s := (inject_Z (bf ^ (r + 1)) + u (clock (world o)))%Q in
    ((if Qle_bool 0 s then Ret (Continue (r + 1)) else Raise (ValueError MsgSleepLength)),
     {| self := self o;
        world := {| clock := S (S (clock (world o)));
                    heap := heap (world o);
                    log := EvSleep s :: EvLog INFO (MsgRetrying s)
                             :: EvLog WARNING (MsgPollingInterrupted (exn_message e))
                             :: log (world o) |} |})
  else
    (Ret (Return false),
     emitted (EvLog ERROR MsgMaxRetries)
       (emitted (EvLog WARNING (MsgPollingInterrupted (exn_message e))) o)).
Proof.
  intros H. unfold poll_except.
  erewrite bind_run by (eapply logger_call_run; exact H).
  destruct (r <? mr)%Z.
  - unfold bind at 1. unfold O.in_world at 1, random_uniform01, W.tick, bind at 1, ret at 1.
    cbn [emitted world self W.set_log W.set_clock clock heap log].
    erewrite bind_run by (eapply logger_call_run; exact H).
    unfold bind, O.in_world, W.sleep, W.emit, W.tick, bind, modify, ret, raise.
    cbn [emitted world self W.set_log W.set_clock clock heap log].
    destruct (Qle_bool 0 (inject_Z (bf ^ (r + 1)) + u (clock (world o)))); reflexivity.
  - erewrite bind_run by (eapply logger_call_run; exact H). reflexivity.
Qed.

Lemma gets_bind {S A B} (f : S -> A) (k : A -> M S B) s :
  bind (gets f) k s = k (f s) s.
Proof. reflexivity. Qed.

Lemma try_except_caught {S A} (body : M S A) caught handler s e s1 :
  body s = (Raise e, s1) -> caught e = true ->
  try_except body caught handler s = handler e s1.
Proof. intros H1 H2. unfold try_except. now rewrite H1, H2. Qed.

Lemma try_except_ret {S A} (body : M S A) caught handler s a s1 :
  body s = (Ret a, s1) -> try_except body caught handler s = (Ret a, s1).
Proof. intros H. unfold try_except. now rewrite H. Qed.

(** A pass through the loop that ends in the [except] block and goes
    round again: the loop condition holds, the [try] block raises a
    transient error, the [except] block retries. *)
Definition retry_pass (u : nat -> Q) (mr bf r : Z) (o : Obj) (r' : Z) (o' : Obj) : Prop :=
  exists o1 e o2,
    any_active (tasks (self o)) o = (Ret true, o1) /\
    poll_try o1 = (Raise e, o2) /\
    transient e = true /\
    poll_except u mr bf r e o2 = (Ret (Continue r'), o').

(** [n] such passes in a row. *)
Inductive retry_run (u : nat -> Q) (mr bf : Z) : nat -> Z -> Obj -> Z -> Obj -> Prop :=
| retry_run_O r o : retry_run u mr bf 0 r o r o
| retry_run_S n r o r1 o1 r2 o2 :
    retry_run u mr bf n r o r1 o1 ->
    retry_pass u mr bf r1 o1 r2 o2 ->
    retry_run u mr bf (S n) r o r2 o2.

(** These passes are passes of [poll_loop]. *)
Lemma poll_loop_retry_pass u fuel mr bf r o r' o' :
  retry_pass u mr bf r o r' o' ->
  poll_loop u (S fuel) mr bf r o = poll_loop u fuel mr bf r' o'.
Proof.
  intros (o1 & e & o2 & Ha & Ht & He & Hx).
  cbn [poll_loop]. rewrite gets_bind.
  erewrite bind_run by exact Ha. cbv beta iota.
  erewrite bind_run.
  2:{ unfold poll_body. erewrite try_except_caught by eassumption. exact Hx. }
  reflexivity.
Qed.

Lemma poll_except_continue u mr bf r e o r' o' :
  poll_except u mr bf r e o = (Ret (Continue r'), o') ->
  (r < mr)%Z /\ r' = (r + 1)%Z /\
  exists rest,
    log (world o')
    = EvSleep (inject_Z (bf ^ (r + 1)) + u (clock (world o))) :: rest.
Proof.
  intros H. destruct (logger (self o)) as [lg|] eqn:Hlg.
  - rewrite (poll_except_run _ _ _ _ _ _ _ Hlg) in H.
    destruct (r <? mr)%Z eqn:Hlt.
    + apply Z.ltb_lt in Hlt. cbv zeta in H.
      destruct (Qle_bool 0 (inject_Z (bf ^ (r + 1)) + u (clock (world o))));
        inversion H; subst. cbn. eauto.
    + inversion H.
  - unfold poll_except in H.
    erewrite bind_raise in H by (apply logger_call_none; exact Hlg). discriminate H.
Qed.

Lemma retry_pass_inv u mr bf r o r' o' :
  retry_pass u mr bf r o r' o' ->
  (r < mr)%Z /\ r' = (r + 1)%Z /\
  exists tick rest,
    log (world o') = EvSleep (inject_Z (bf ^ (r + 1)) + u tick) :: rest.
Proof.
  intros (o1 & e & o2 & _ & _ & _ & Hx).
  apply poll_except_continue in Hx as (Hlt & -> & rest & Hlog). eauto.
Qed.

Lemma retry_run_counter u mr bf n r o r' o' :
  retry_run u mr bf n r o r' o' -> r' = (r + Z.of_nat n)%Z.
Proof.
  induction 1 as [|n r o r1 o1 r2 o2 _ IH Hp].
  - lia.
  - apply retry_pass_inv in Hp as (_ & -> & _). lia.
Qed.

Lemma check_failed_inv ts : forall o x o',
  check_failed ts o = (Ret x, o') -> x = None \/ x = Some false.
Proof.
  induction ts as [|t ts IH]; intros o x o' H; cbn [check_failed] in H.
  - inversion H. auto.
  - apply bind_ret_inv in H as (st & o1 & _ & H).
    destruct (Py.eq_str st TaskStatus.FAILED).
    + apply bind_ret_inv in H as ([] & o2 & _ & H). inversion H. auto.
    + eapply IH; exact H.
Qed.

Lemma poll_try_inv o c o' :
  poll_try o = (Ret c, o') -> c = Continue 0 \/ c = Return false.
Proof.
  unfold poll_try. intros H.
  rewrite gets_bind in H.
  apply bind_ret_inv in H as (running & o1 & _ & H).
  apply bind_ret_inv in H as ([] & o2 & _ & H).
  rewrite gets_bind in H.
  apply bind_ret_inv in H as (failed & o3 & Hf & H).
  apply check_failed_inv in Hf as [-> | ->].
  - apply bind_ret_inv in H as ([] & o4 & _ & H). inversion H. auto.
  - inversion H. auto.
Qed.




Lemma export_one_task_per_item_witness :
  exists m w',
    export_im_collection Examples.render Examples.two_images Examples.build_task
      Examples.s2 (VStr "test_s2") 0 "system:index" None Examples.w_options
    = (Ret m, w') /\
    map started (tasks m) = [true; true] /\
    exists items,
      Examples.two_images Examples.s2 "system:index" 0 = Ret items /\
      length (tasks m) = length items /\
      Forall2
        (fun idx t =>
           exists d, heap Examples.w_options !! 0 = Some d /\
                     exported Examples.render Examples.build_task Examples.s2
                       (VStr "test_s2") "system:index" d idx t)
        items (tasks m).
Proof.
  eexists. eexists. split; [vm_compute; reflexivity|].
  split; [reflexivity|].
  eapply (export_one_task_per_item Examples.render Examples.two_images
            Examples.build_task Examples.s2 (VStr "test_s2") 0 "system:index" None
            Examples.w_options).
  vm_compute. reflexivity.
Defined.

(** ** When [poll] returns [True], and when it gives up *)

Lemma call_status_inv t o r o' :
  O.call_status t o = (r, o') -> r = status t (clock (world o)) /\ self o' = self o.
Proof.
  unfold O.call_status, O.in_world, W.remote, W.tick, bind, lift. cbn.
  destruct (status t (clock (world o))); intros H; inversion H; auto.
Qed.

Lemma all_completed_true ts : forall o o',
  all_completed ts o = (Ret true, o') ->
  Forall (fun t => exists n, status t n = Ret (VStr TaskStatus.COMPLETED)) ts.
Proof.
  induction ts as [|t ts IH]; intros o o' H; cbn [all_completed] in H.
  - constructor.
  - apply bind_ret_inv in H as (st & o1 & Hst & H).
    apply call_status_inv in Hst as [Hst _].
    destruct st as [|s|d]; cbn [Py.eq_str] in H; try discriminate H.
    destruct (String.eqb s TaskStatus.COMPLETED) eqn:Hs; [|discriminate H].
    apply String.eqb_eq in Hs. subst s.
    constructor; [eauto | eapply IH; exact H].
Qed.

Lemma poll_body_same_self u mr bf r : frame same_self (poll_body u mr bf r).
Proof.
  unfold poll_body. apply frame_try_except;
    [exact same_self_trans | apply poll_try_same_self
    | intros ?; apply poll_except_same_self].
Qed.

(** Wherever the loop body leaves [poll], it leaves it with [False]. *)
Lemma poll_body_return u mr bf r o b o' :
  poll_body u mr bf r o = (Ret (Return b), o') -> b = false.
Proof.
  unfold poll_body, try_except.
  destruct (poll_try o) as [[c|e|] o1] eqn:Ht; intros H.
  - inversion H; subst. apply poll_try_inv in Ht as [Ht | Ht]; now inversion Ht.
  - destruct (transient e); [|discriminate H].
    destruct (logger (self o1)) as [lg|] eqn:Hlg.
    + rewrite (poll_except_run _ _ _ _ _ _ _ Hlg) in H.
      destruct (r <? mr)%Z; cbv zeta in H.
      * destruct (Qle_bool 0 (inject_Z (bf ^ (r + 1)) + u (clock (world o1))));
          inversion H.
      * now inversion H.
    + unfold poll_except in H.
      erewrite bind_raise in H by (apply logger_call_none; exact Hlg). discriminate H.
  - discriminate H.
Qed.

Lemma poll_loop_true u mr bf fuel : forall r o o',
  poll_loop u fuel mr bf r o = (Ret true, o') ->
  Forall (fun t => exists n, status t n = Ret (VStr TaskStatus.COMPLETED))
    (tasks (self o)).
Proof.
  induction fuel as [|fuel IH]; intros r o o' H; cbn [poll_loop] in H;
    rewrite gets_bind in H;
    apply bind_ret_inv in H as (busy & o1 & Ha & H);
    apply any_active_same_self in Ha; unfold same_self in Ha;
    destruct busy.
  - discriminate H.
  - rewrite gets_bind, Ha in H. eapply all_completed_true; exact H.
  - apply bind_ret_inv in H as (c & o2 & Hb & H).
    destruct c as [r'|b].
    + apply IH in H. apply poll_body_same_self in Hb. unfold same_self in Hb.
      now rewrite Hb, Ha in H.
    + inversion H; subst b. apply poll_body_return in Hb. discriminate Hb.
  - rewrite gets_bind, Ha in H. eapply all_completed_true; exact H.
Qed.

(** X1.  [poll] returns [True] only when every task has answered [status()]
    with the string [COMPLETED] itself: a task that reports its state in
    a mapping never lets [poll] return [True]. *)
Lemma poll_true_needs_string_status u fuel mr bf o o' :
  poll u fuel mr bf o = (Ret true, o') ->
  Forall (fun t => exists n, status t n = Ret (VStr TaskStatus.COMPLETED))
    (tasks (self o)).
Proof. apply poll_loop_true. Qed.

Lemma poll_loop_retry_run u mr bf n r o r' o' :
  retry_run u mr bf n r o r' o' ->
  forall fuel, poll_loop u (n + fuel) mr bf r o = poll_loop u fuel mr bf r' o'.
Proof.
  induction 1 as [|n r o r1 o1 r2 o2 _ IH Hp]; intros fuel.
  - reflexivity.
  - replace (S n + fuel)%nat with (n + S fuel)%nat by lia.
    rewrite IH. now apply poll_loop_retry_pass.
Qed.

(** With a logger: once the counter has reached the retry budget, the
    next transient error raised in the [try] block is logged and [poll]
    returns [False]. *)
Lemma poll_loop_exhausted u fuel mr bf r o o1 e o2 lg :
  (mr <= r)%Z ->
  logger (self o) = Some lg ->
  any_active (tasks (self o)) o = (Ret true, o1) ->
  poll_try o1 = (Raise e, o2) ->
  transient e = true ->
  poll_loop u (S fuel) mr bf r o =
  (Ret false,
   emitted (EvLog ERROR MsgMaxRetries)
     (emitted (EvLog WARNING (MsgPollingInterrupted (exn_message e))) o2)).
Proof.
  intros Hr Hlg Ha Ht He.
  assert (Hlg2 : logger (self o2) = Some lg).
  { apply any_active_same_self in Ha. apply poll_try_same_self in Ht.
    unfold same_self in *. now rewrite Ht, Ha. }
  cbn [poll_loop]. rewrite gets_bind.
  erewrite bind_run by exact Ha. cbv beta iota.
  erewrite bind_run.
  2:{ unfold poll_body. erewrite try_except_caught by eassumption.
      rewrite (poll_except_run _ _ _ _ _ _ _ Hlg2).
      apply Z.ltb_ge in Hr. rewrite Hr. reflexivity. }
  reflexivity.
Qed.

(** X2.  With a logger: [max_retries + 1] passes in a row that raise a
    transient error in the [try] block make [poll] return [False]. *)
Lemma poll_retry_budget_exhausted u fuel mr bf o r1 o1 o2 e o3 lg :
  (0 <= mr)%Z ->
  logger (self o) = Some lg ->
  retry_run u mr bf (Z.to_nat mr) 0 o r1 o1 ->
  any_active (tasks (self o1)) o1 = (Ret true, o2) ->
  poll_try o2 = (Raise e, o3) ->
  transient e = true ->
  poll u (Z.to_nat mr + S fuel) mr bf o =
  (Ret false,
   emitted (EvLog ERROR MsgMaxRetries)
     (emitted (EvLog WARNING (MsgPollingInterrupted (exn_message e))) o3)).
Proof.
  intros Hmr Hlg Hrun Ha Ht He.
  unfold poll. rewrite (poll_loop_retry_run _ _ _ _ _ _ _ _ Hrun).
  pose proof (retry_run_counter _ _ _ _ _ _ _ _ Hrun) as Hr1.
  assert (Hself : logger (self o1) = Some lg).
  { clear Ha Ht Hr1. induction Hrun as [|n r o r1 o1 r2 o4 _ IH Hp]; [exact Hlg|].
    destruct Hp as (a & e' & b & Hp1 & Hp2 & _ & Hp3).
    apply any_active_same_self in Hp1. apply poll_try_same_self in Hp2.
    apply poll_except_same_self in Hp3. unfold same_self in *.
    rewrite Hp3, Hp2, Hp1. now apply IH. }
  eapply poll_loop_exhausted; eauto. lia.
Qed.

(** * Further properties of the program *)

(** ** Polling: what ends it and what does not *)

(** The state [n] interactions later, nothing else changed. *)
Definition after_ticks (n : nat) (o : Obj) : Obj :=
  {| self := self o; world := W.set_clock (n + clock (world o)) (world o) |}.

Lemma after_ticks_0 o : after_ticks 0 o = o.
Proof. destruct o as [m [c h l]]. reflexivity. Qed.

Lemma after_ticks_add n m o : after_ticks n (after_ticks m o) = after_ticks (n + m) o.
Proof.
  unfold after_ticks, W.set_clock. cbn. now rewrite Nat.add_assoc.
Qed.

Lemma call_active_run t o :
  O.call_active t o = (active t (clock (world o)), after_ticks 1 o).
Proof.
  unfold O.call_active, O.in_world, W.remote, W.tick, bind, lift. cbn.
  destruct (active t (clock (world o))); reflexivity.
Qed.

Lemma call_status_run t o :
  O.call_status t o = (status t (clock (world o)), after_ticks 1 o).
Proof.
  unfold O.call_status, O.in_world, W.remote, W.tick, bind, lift. cbn.
  destruct (status t (clock (world o))); reflexivity.
Qed.




(** The first pass of the loop when the first task is active and its
    [status()], asked by line 30, does not give a mapping. *)
Lemma first_pass (o : Obj) t ts :
  tasks (self o) = t :: ts ->
  active t (clock (world o)) = Ret true ->
  any_active (tasks (self o)) o = (Ret true, after_ticks 1 o).
Proof.
  intros Hts Ha. rewrite Hts. cbn [any_active]. unfold bind.
  rewrite call_active_run, Ha. reflexivity.
Qed.

Lemma poll_try_status_raises (o : Obj) t ts e :
  tasks (self o) = t :: ts ->
  task_type t = EXPORT_IMAGE ->
  status t (clock (world o)) = Raise e ->
  poll_try o = (Raise e, after_ticks 1 o).
Proof.
  intros Hts Hty Hst. unfold poll_try. rewrite gets_bind, Hts.
  cbn [running_exports]. rewrite Hty, String.eqb_refl.
  do 3 (erewrite bind_raise; [reflexivity|]).
  now rewrite call_status_run, Hst.
Qed.

Lemma poll_try_status_string (o : Obj) t ts s :
  tasks (self o) = t :: ts ->
  task_type t = EXPORT_IMAGE ->
  status t (clock (world o)) = Ret (VStr s) ->
  poll_try o = (Raise TypeError, after_ticks 1 o).
Proof.
  intros Hts Hty Hst. unfold poll_try. rewrite gets_bind, Hts.
  cbn [running_exports]. rewrite Hty, String.eqb_refl.
  do 2 (erewrite bind_raise; [reflexivity|]).
  erewrite bind_run by (rewrite call_status_run, Hst; reflexivity).
  reflexivity.
Qed.

Lemma poll_loop_try_raises u fuel mr bf r o o1 e o2 :
  any_active (tasks (self o)) o = (Ret true, o1) ->
  poll_try o1 = (Raise e, o2) ->
  transient e = false ->
  poll_loop u (S fuel) mr bf r o = (Raise e, o2).
Proof.
  intros Ha Ht He. cbn [poll_loop]. rewrite gets_bind.
  erewrite bind_run by exact Ha. cbv beta iota.
  erewrite bind_raise; [reflexivity|].
  unfold poll_body, try_except. now rewrite Ht, He.
Qed.

(** X4.  A [status()] that is a plain string breaks line 30: as soon as
    the loop body runs with an export-image task first in the list, [poll]
    ends with the [TypeError] of [status()['state']]. *)
Theorem poll_string_status_type_error :
  forall u fuel max_retries backoff_factor o t ts s,
    tasks (self o) = t :: ts ->
    task_type t = EXPORT_IMAGE ->
    active t (clock (world o)) = Ret true ->
    status t (S (clock (world o))) = Ret (VStr s) ->
    poll u (S fuel) max_retries backoff_factor o = (Raise TypeError, after_ticks 2 o).
Proof.
  intros u fuel mr bf o t ts s Hts Hty Ha Hst.
  unfold poll. erewrite poll_loop_try_raises.
  - reflexivity.
  - eapply first_pass; eassumption.
  - rewrite (poll_try_status_string (after_ticks 1 o) t ts s Hts Hty Hst).
    now rewrite after_ticks_add.
  - reflexivity.
Qed.

Module Samples.

(** A running task that answers [status()] with a plain string. *)
Definition string_status_task : Task :=
  Examples.handle "T5" EXPORT_IMAGE (Examples.cloud_config "woolpert_example/f" "GEO_TIFF")
    (fun _ => Ret true) (fun _ => Ret (VStr "RUNNING")).

(** A task that reports the state [FAILED] in a mapping. *)
Definition failed_mapping_task : Task :=
  Examples.handle "T6" EXPORT_IMAGE (Examples.cloud_config "woolpert_example/g" "GEO_TIFF")
    (fun _ => Ret false) (fun _ => Ret (VDict [("state", VStr "FAILED")])).

End Samples.

Lemma poll_string_status_type_error_witness :
  let o := Examples.manager [Samples.string_status_task] (Some Examples.a_logger) in
  poll Examples.half 3 5 2 o = (Raise TypeError, after_ticks 2 o).
Proof.
  intros o.
  exact (poll_string_status_type_error Examples.half 2 5 2 o
           Samples.string_status_task [] "RUNNING" eq_refl eq_refl eq_refl eq_refl).
Defined.

(** X5.  A zero or negative retry budget: with a logger, the first
    transient error of the [try] block is logged twice (warning, error)
    and [poll] returns [False] without any sleep. *)
Theorem poll_without_budget :
  forall u fuel max_retries backoff_factor o t ts e lg,
    (max_retries <= 0)%Z ->
    logger (self o) = Some lg ->
    tasks (self o) = t :: ts ->
    task_type t = EXPORT_IMAGE ->
    active t (clock (world o)) = Ret true ->
    status t (S (clock (world o))) = Raise e ->
    transient e = true ->
    poll u (S fuel) max_retries backoff_factor o
    = (Ret false,
       emitted (EvLog ERROR MsgMaxRetries)
         (emitted (EvLog WARNING (MsgPollingInterrupted (exn_message e)))
            (after_ticks 2 o))).
Proof.
  intros u fuel mr bf o t ts e lg Hmr Hlg Hts Hty Ha Hst He.
  unfold poll.
  erewrite (poll_loop_exhausted u fuel mr bf 0 o (after_ticks 1 o) e (after_ticks 2 o) lg);
    try eassumption.
  - reflexivity.
  - eapply first_pass; eassumption.
  - rewrite (poll_try_status_raises (after_ticks 1 o) t ts e Hts Hty Hst).
    now rewrite after_ticks_add.
Qed.

Lemma poll_without_budget_witness :
  let o := Examples.manager [Examples.unreachable_task] (Some Examples.a_logger) in
  poll Examples.half 1 (-2) 2 o
  = (Ret false,
     emitted (EvLog ERROR MsgMaxRetries)
       (emitted (EvLog WARNING (MsgPollingInterrupted (MsgText "connection reset")))
          (after_ticks 2 o))).
Proof.
  intros o.
  refine (poll_without_budget Examples.half 0 (-2) 2 o Examples.unreachable_task []
            (ConnectionError (MsgText "connection reset")) Examples.a_logger
            _ eq_refl eq_refl eq_refl eq_refl eq_refl eq_refl).
  discriminate.
Defined.




(** A task whose [status()] is, at every moment, a mapping with a
    ['state'] entry, as line 30 reads it. *)
Definition reports_state (t : Task) : Prop :=
  forall n, exists d st, status t n = Ret (VDict d) /\ Dict.get "state" d = Some st.

Lemma running_exports_reports ts :
  Forall reports_state ts ->
  forall o, exists n k, running_exports ts o = (Ret n, after_ticks k o).
Proof.
  induction 1 as [|t ts Ht _ IH]; intros o.
  - exists 0%nat, 0%nat. now rewrite after_ticks_0.
  - cbn [running_exports]. destruct (String.eqb (task_type t) EXPORT_IMAGE).
    + destruct (Ht (clock (world o))) as (d & st & Hst & Hget).
      destruct (IH (after_ticks 1 o)) as (n & k & Hrun).
      exists (if Py.eq_str st "RUNNING" then S n else n), (k + 1)%nat.
      erewrite bind_run.
      2:{ erewrite bind_run by (rewrite call_status_run, Hst; reflexivity).
          rewrite lift_bind. cbn [Py.getitem]. rewrite Hget. reflexivity. }
      erewrite bind_run by exact Hrun.
      now rewrite after_ticks_add.
    + destruct (IH o) as (n & k & Hrun). exists n, k.
      erewrite bind_run by reflexivity.
      erewrite bind_run by exact Hrun. reflexivity.
Qed.

Lemma check_failed_reports ts :
  Forall reports_state ts ->
  forall o, exists k, check_failed ts o = (Ret None, after_ticks k o).
Proof.
  induction 1 as [|t ts Ht _ IH]; intros o.
  - exists 0%nat. now rewrite after_ticks_0.
  - cbn [check_failed].
    destruct (Ht (clock (world o))) as (d & st & Hst & _).
    destruct (IH (after_ticks 1 o)) as (k & Hrun).
    exists (k + 1)%nat.
    erewrite bind_run by (rewrite call_status_run, Hst; reflexivity).
    cbn [Py.eq_str]. rewrite Hrun. now rewrite after_ticks_add.
Qed.

Lemma poll_try_reports o :
  Forall reports_state (tasks (self o)) ->
  exists o', poll_try o = (Ret (Continue 0), o') /\ self o' = self o.
Proof.
  intros H.
  assert (Hex : exists o', poll_try o = (Ret (Continue 0), o')).
  { unfold poll_try. rewrite gets_bind.
    destruct (running_exports_reports _ H o) as (n & k & Hrun).
    erewrite bind_run by exact Hrun.
    erewrite bind_run by reflexivity.
    match goal with
    | |- exists _, bind (gets _) _ ?s = _ =>
        destruct (check_failed_reports (tasks (self o)) H s) as (k' & Hcf)
    end.
    rewrite gets_bind.
    erewrite bind_run by exact Hcf.
    eexists. reflexivity. }
  destruct Hex as [o' Ho']. exists o'. split; [exact Ho'|].
  exact (poll_try_same_self o _ o' Ho').
Qed.

(** X7.  [poll] has no time limit and does not read the state out of a
    status mapping: while the first task stays active and every task
    answers [status()] with a mapping that has a ['state'] entry (be the
    state [FAILED]), no number of passes makes [poll] return or raise. *)
Theorem poll_keeps_polling :
  forall u fuel max_retries backoff_factor o t ts,
    tasks (self o) = t :: ts ->
    (forall n, active t n = Ret true) ->
    Forall reports_state (t :: ts) ->
    fst (poll u fuel max_retries backoff_factor o) = Hang.
Proof.
  intros u fuel mr bf o t ts Hts Ha Hrep. unfold poll. generalize 0%Z as r.
  revert o Hts. induction fuel as [|fuel IH]; intros o Hts r;
    cbn [poll_loop]; rewrite gets_bind;
    erewrite bind_run by (eapply first_pass; [exact Hts | apply Ha]);
    cbv beta iota.
  - reflexivity.
  - destruct (poll_try_reports (after_ticks 1 o)) as (o' & Htry & Hself).
    { cbn [after_ticks self]. now rewrite Hts. }
    erewrite bind_run.
    2:{ unfold poll_body. apply try_except_ret. exact Htry. }
    apply IH. rewrite Hself. exact Hts.
Qed.

Lemma poll_keeps_polling_witness :
  fst (poll Examples.half 3 5 2
         (Examples.manager [Examples.running_task; Samples.failed_mapping_task] None))
  = Hang.
Proof.
  apply (poll_keeps_polling Examples.half 3 5 2 _ Examples.running_task
           [Samples.failed_mapping_task]).
  - reflexivity.
  - reflexivity.
  - repeat constructor; intros n; do 2 eexists; split; reflexivity.
Defined.

Lemma poll_true_needs_string_status_witness :
  Forall (fun t => exists n, status t n = Ret (VStr TaskStatus.COMPLETED))
    [Examples.geotiff_task; Examples.asset_task].
Proof.
  exact (poll_true_needs_string_status Examples.half 0 5 2
           (Examples.manager [Examples.geotiff_task; Examples.asset_task] None)
           _ eq_refl).
Defined.

Lemma poll_retry_budget_exhausted_witness :
  exists o',
    poll Examples.half 4 1 2
      (Examples.manager [Examples.unreachable_task] (Some Examples.a_logger))
    = (Ret false, o') /\
    log (world o')
    = [EvLog ERROR MsgMaxRetries;
       EvLog WARNING (MsgPollingInterrupted (MsgText "connection reset"));
       EvSleep (5 # 2); EvLog INFO (MsgRetrying (5 # 2));
       EvLog WARNING (MsgPollingInterrupted (MsgText "connection reset"))].
Proof.
  set (o := Examples.manager [Examples.unreachable_task] (Some Examples.a_logger)).
  assert (Hpass : exists o1, retry_pass Examples.half 1 2 0 o 1 o1).
  { eexists. do 3 eexists. repeat split; vm_compute; reflexivity. }
  destruct Hpass as [o1 Hpass].
  assert (Ho1 : o1 = snd (poll_body Examples.half 1 2 0 (after_ticks 1 o))).
  { destruct Hpass as (a & e & b & H1 & H2 & _ & H4).
    inversion H1; subst a. inversion H2; subst e b. inversion H4. reflexivity. }
  assert (Hrun : retry_run Examples.half 1 2 (Z.to_nat 1) 0 o 1 o1).
  { eapply retry_run_S; [apply retry_run_O | exact Hpass]. }
  eexists. split.
  - eapply (poll_retry_budget_exhausted Examples.half 2 1 2 o 1 o1 _ _ _
              Examples.a_logger); try exact Hrun; try reflexivity.
    + discriminate.
    + subst o1. vm_compute. reflexivity.
    + vm_compute. reflexivity.
    + reflexivity.
  - vm_compute. reflexivity.
Defined.

Lemma running_exports_other_types ts :
  Forall (fun t => task_type t <> EXPORT_IMAGE) ts ->
  forall o, running_exports ts o = (Ret 0%nat, o).
Proof.
  induction 1 as [|t ts Ht _ IH]; intros o.
  - reflexivity.
  - cbn [running_exports]. apply String.eqb_neq in Ht. rewrite Ht.
    erewrite bind_run by reflexivity.
    erewrite bind_run by apply IH. reflexivity.
Qed.

(** X8.  The failure check of lines 33-36 fires on a [status()] that is
    the string [FAILED] itself: with tasks of other types than image
    export (line 30 does not ask them), a first task that is active and
    answers [FAILED] makes [poll] log [Task <id> failed] and return
    [False] in the first pass, before any sleep. *)
Theorem poll_failed_string_status :
  forall u fuel max_retries backoff_factor o t ts lg,
    logger (self o) = Some lg ->
    tasks (self o) = t :: ts ->
    Forall (fun t' => task_type t' <> EXPORT_IMAGE) (t :: ts) ->
    active t (clock (world o)) = Ret true ->
    status t (S (clock (world o))) = Ret (VStr TaskStatus.FAILED) ->
    poll u (S fuel) max_retries backoff_factor o
    = (Ret false,
       emitted (EvLog ERROR (MsgTaskFailed (id t)))
         (after_ticks 1
            (emitted (EvPrint (MsgRunningExports 0 (length (t :: ts))))
               (after_ticks 1 o)))).
Proof.
  intros u fuel mr bf o t ts lg Hlg Hts Hty Ha Hst.
  unfold poll. cbn [poll_loop]. rewrite gets_bind.
  erewrite bind_run by (eapply first_pass; eassumption). cbv beta iota.
  erewrite bind_run.
  2:{ unfold poll_body. apply try_except_ret.
      unfold poll_try. rewrite gets_bind.
      change (tasks (self (after_ticks 1 o))) with (tasks (self o)). rewrite Hts.
      erewrite bind_run by (apply running_exports_other_types; exact Hty).
      erewrite bind_run by reflexivity.
      rewrite gets_bind.
      match goal with
      | |- context [check_failed (tasks (self ?s))] =>
          change (tasks (self s)) with (tasks (self o))
      end.
      rewrite Hts. cbn [check_failed].
      erewrite bind_run.
      2:{ erewrite bind_run.
          2:{ rewrite call_status_run. cbn. rewrite Hst. reflexivity. }
          cbn [Py.eq_str]. unfold TaskStatus.FAILED. rewrite String.eqb_refl.
          erewrite bind_run by (eapply logger_call_run; exact Hlg).
          reflexivity. }
      reflexivity. }
  reflexivity.
Qed.

Lemma poll_failed_string_status_witness :
  let t := Examples.handle "T7" "EXPORT_TABLE" Examples.drive_config
             (fun _ => Ret true) (fun _ => Ret (VStr "FAILED")) in
  let o := Examples.manager [t] (Some Examples.a_logger) in
  poll Examples.half 1 5 2 o
  = (Ret false,
     emitted (EvLog ERROR (MsgTaskFailed "T7"))
       (after_ticks 1 (emitted (EvPrint (MsgRunningExports 0 1)) (after_ticks 1 o)))).
Proof.
  intros t o.
  refine (poll_failed_string_status Examples.half 0 5 2 o t [] Examples.a_logger
            eq_refl eq_refl _ eq_refl eq_refl).
  repeat constructor. discriminate.
Defined.

(** ** Path resolution: what it reads and what it leaves *)

Lemma export_destination_unsupported_witness :
  let o := Examples.manager [Examples.drive_task] (Some Examples.a_logger) in
  export_destination Examples.render Examples.drive_task o
  = (Raise (ValueError (MsgUnsupported Examples.drive_config)),
     {| self := self o;
        world := W.set_log
                   [EvLog ERROR (MsgUnsupported Examples.drive_config);
                    EvPrint (MsgUnsupported Examples.drive_config)]
                   (world o) |}).
Proof.
  intros o.
  exact (export_destination_unsupported Examples.render Examples.drive_task _ o
           eq_refl eq_refl eq_refl).
Defined.

(** The loop, from two states that hold the same manager. *)
Lemma for_each_destination_self ds ts : forall o o2,
  self o = self o2 ->
  fst (for_each ts (export_destination ds) o)
  = fst (for_each ts (export_destination ds) o2) /\
  self (snd (for_each ts (export_destination ds) o))
  = self (snd (for_each ts (export_destination ds) o2)).
Proof.
  induction ts as [|t ts IH]; intros o o2 Hself.
  - cbn. auto.
  - cbn [for_each]. unfold bind.
    pose proof (export_destination_uniform ds t o o2) as Hu.
    destruct (export_destination ds t o) as [[[]|e|] o1].
    + destruct Hu as (p & -> & Hu). rewrite Hu.
      apply IH. unfold O.extend. cbn. now rewrite Hself.
    + destruct Hu as (Hs1 & o2' & Hu & Hs2). rewrite Hu. cbn.
      split; [reflexivity|]. now rewrite Hs1, Hs2.
    + destruct Hu.
Qed.

(** The manager after the first two lines of [get_export_destination]. *)
Definition with_tasks (tasks_arg : option (list Task)) (o : Obj) : Obj :=
  match tasks_arg with
  | Some (t :: ts) =>
      O.set_self {| tasks := t :: ts; logger := logger (self o);
                    paths := paths (self o) |} o
  | Some [] | None => o
  end.

Lemma get_export_destination_run ds tasks_arg o :
  get_export_destination ds tasks_arg o
  = for_each (tasks (self (with_tasks tasks_arg o))) (export_destination ds)
      (with_tasks tasks_arg o).
Proof. destruct tasks_arg as [[|t ts]|]; reflexivity. Qed.

(** X10.  [get_export_destination] reads the configs alone: it asks no
    task and looks at no clock, so from any two states of the world it
    ends the same way and leaves the same manager.  Paths are resolved
    all the same for tasks that failed or are still running. *)
Theorem get_export_destination_ignores_world :
  forall ds tasks_arg m w w2,
    let run := get_export_destination ds tasks_arg {| self := m; world := w |} in
    let run2 := get_export_destination ds tasks_arg {| self := m; world := w2 |} in
    fst run = fst run2 /\ self (snd run) = self (snd run2).
Proof.
  intros ds arg m w w2. cbv zeta.
  rewrite !get_export_destination_run.
  assert (Hself : self (with_tasks arg {| self := m; world := w |})
                  = self (with_tasks arg {| self := m; world := w2 |}))
    by (destruct arg as [[|t ts]|]; reflexivity).
  revert Hself.
  generalize (with_tasks arg {| self := m; world := w |}) as o1.
  generalize (with_tasks arg {| self := m; world := w2 |}) as o2.
  intros o2 o1 Hself. rewrite Hself.
  apply for_each_destination_self. exact Hself.
Qed.

(** X11.  When [get_export_destination] returns, it has added exactly one
    path per task of the manager, and has touched nothing else: the world
    (clock, heap, output) and the logger are as before. *)
Theorem get_export_destination_one_path_per_task :
  forall ds tasks_arg o o',
    get_export_destination ds tasks_arg o = (Ret tt, o') ->
    world o' = world o /\
    logger (self o') = logger (self o) /\
    length (paths (self o'))
    = (length (paths (self o)) + length (tasks (self o')))%nat.
Proof.
  intros ds arg o o' H. unfold get_export_destination in H.
  apply bind_ret_inv in H as ([] & oa & Ha & H).
  rewrite gets_bind in H.
  pose proof (for_each_destination_uniform ds (tasks (self oa)) oa oa) as Hu.
  rewrite H in Hu. destruct Hu as (ps & Hlen & -> & _).
  assert (Hoa : world oa = world o /\ logger (self oa) = logger (self o)
                /\ paths (self oa) = paths (self o)).
  { destruct arg as [[|t ts]|]; inversion Ha; auto. }
  destruct Hoa as (Hw & Hl & Hp).
  unfold O.extend. cbn. rewrite Hw, Hl, Hp, length_app, Hlen. auto.
Qed.

Lemma get_export_destination_one_path_per_task_witness :
  let o := Examples.manager [Examples.geotiff_task; Examples.asset_task] None in
  let o' := O.extend [VStr "woolpert_example/a.tif"; VStr "projects/p/assets/a"] o in
  world o' = world o /\
  logger (self o') = logger (self o) /\
  length (paths (self o')) = (length (paths (self o)) + length (tasks (self o')))%nat.
Proof.
  intros o o'.
  exact (get_export_destination_one_path_per_task Examples.render None o o' eq_refl).
Defined.

Lemma export_destination_keeps_tasks ds t : 
  frame (fun o o' => tasks (self o') = tasks (self o)) (export_destination ds t).
Proof.
  intros o r o' H.
  pose proof (export_destination_uniform ds t o o) as Hu. rewrite H in Hu.
  destruct r as [[]|e|].
  - destruct Hu as (p & -> & _). reflexivity.
  - destruct Hu as (Hs & _). now rewrite Hs.
  - destruct Hu.
Qed.

(** X12.  The [tasks] argument: an empty list is ignored like [None] (the
    manager's own tasks are resolved), a non-empty list replaces
    [self.tasks] and stays there however the call ends; without argument
    [self.tasks] is as before. *)
Theorem get_export_destination_tasks_argument :
  forall ds o,
    get_export_destination ds (Some []) o = get_export_destination ds None o /\
    tasks (self (snd (get_export_destination ds None o))) = tasks (self o) /\
    forall t ts,
      tasks (self (snd (get_export_destination ds (Some (t :: ts)) o))) = t :: ts.
Proof.
  intros ds o.
  assert (Hloop : forall ts o1,
             tasks (self (snd (for_each ts (export_destination ds) o1)))
             = tasks (self o1)).
  { intros ts o1.
    destruct (for_each ts (export_destination ds) o1) as [r o2] eqn:E.
    refine (frame_for_each (fun o o' => tasks (self o') = tasks (self o))
              _ _ ts (export_destination ds) _ o1 r o2 E).
    - reflexivity.
    - intros s1 s2 s3 H1 H2. now rewrite H2.
    - intros x. apply export_destination_keeps_tasks. }
  split; [reflexivity|]. split.
  - rewrite get_export_destination_run. apply Hloop.
  - intros t ts. rewrite get_export_destination_run. apply Hloop.
Qed.



(** ** export_im_collection: what it calls, prints and passes on *)

Lemma dict_get_set_eq k v d : Dict.get k (Dict.set k v d) = Some v.
Proof.
  induction d as [|[k' v'] d IH]; cbn.
  - now rewrite String.eqb_refl.
  - destruct (String.eqb k k') eqn:E; cbn.
    + now rewrite String.eqb_refl.
    + now rewrite E.
Qed.

Lemma dict_get_set_ne k k' v d : k' <> k -> Dict.get k' (Dict.set k v d) = Dict.get k' d.
Proof.
  intros Hne. apply String.eqb_neq in Hne.
  induction d as [|[k0 v0] d IH]; cbn.
  - now rewrite Hne.
  - destruct (String.eqb k k0) eqn:E; cbn.
    + apply String.eqb_eq in E. subst k0. now rewrite Hne.
    + destruct (String.eqb k' k0); [reflexivity | exact IH].
Qed.

Lemma item_options_get_other ds d idx k :
  k <> "fileNamePrefix" ->
  Dict.get k (item_options ds d idx) = Dict.get k d.
Proof.
  intros Hk. unfold item_options.
  destruct (Dict.get "fileNamePrefix" d); now apply dict_get_set_ne.
Qed.

Lemma item_options_get_prefix ds d idx :
  Dict.get "fileNamePrefix" (item_options ds d idx)
  = Some (match Dict.get "fileNamePrefix" d with
          | None => idx
          | Some old => VStr (format ds old +:+ "/" +:+ format ds idx)
          end).
Proof.
  unfold item_options.
  destruct (Dict.get "fileNamePrefix" d); apply dict_get_set_eq.
Qed.

Lemma task_start_run t w :
  task_start t w
  = (match start t (clock w) with
     | Ret _ => Ret (mark_started t)
     | Raise e => Raise e
     | Hang => Hang
     end, W.set_clock (S (clock w)) w).
Proof.
  unfold task_start, W.remote, W.tick, bind, lift, ret. cbn.
  destruct (start t (clock w)); reflexivity.
Qed.

Lemma call_toCloudStorage_run tcs im desc kw (w : World) :
  Dict.mem "image" kw || Dict.mem "description" kw = false ->
  call_toCloudStorage tcs im desc kw w = (tcs im desc kw, w).
Proof. intros H. unfold call_toCloudStorage. now rewrite H. Qed.

Definition exporting (idx : pyval) : event := EvPrint (MsgExporting idx).

Lemma export_items_trace ds tcs c desc eo prop d : forall items acc w ts w',
  heap w !! eo = Some d ->
  export_items ds tcs items c desc eo prop acc w = (Ret ts, w') ->
  heap w' = heap w ++ map (item_options ds d) items /\
  log w' = rev (map exporting items) ++ log w /\
  clock w' = (length items + clock w)%nat.
Proof.
  induction items as [|idx items IH]; intros acc w ts w' Hd H.
  - inversion H; subst. cbn. now rewrite app_nil_r.
  - rewrite (export_items_cons _ _ _ _ _ _ _ _ _ _ _ Hd) in H.
    apply bind_ret_inv in H as (t0 & w2 & Hc & H).
    apply call_toCloudStorage_inv in Hc as [-> _].
    apply bind_ret_inv in H as (t1 & w3 & Hs & H).
    rewrite task_start_run in Hs. inversion Hs as [[Hr Hw3]]. clear Hs Hr.
    apply bind_ret_inv in H as ([] & w4 & He & H).
    inversion He; subst w4. clear He.
    apply IH in H.
    2:{ subst w3. cbn. now apply lookup_app_l_Some. }
    destruct H as (Hh & Hl & Hc). subst w3. cbn in Hh, Hl, Hc.
    split; [|split].
    + rewrite Hh. cbn. now rewrite <- app_assoc.
    + rewrite Hl. cbn. now rewrite <- app_assoc.
    + rewrite Hc. cbn. lia.
Qed.

(** X14.  The trace of a call that returns: one [getInfo], then for each
    item one [start()] and one line [Exporting image <item>...], in the
    order of the items; one copy of the caller's options per item is
    allocated after the heap the call was given. *)
Theorem export_im_collection_trace :
  forall ds agg tcs c description export_options property lg w m w',
    export_im_collection ds agg tcs c description export_options property lg w
    = (Ret m, w') ->
    exists items,
      agg c property (clock w) = Ret items /\
      clock w' = S (length items + clock w) /\
      log w' = rev (map exporting items) ++ log w /\
      heap w' = heap w ++ match heap w !! export_options with
                          | Some d => map (item_options ds d) items
                          | None => []
                          end.
Proof.
  intros ds agg tcs c desc eo prop lg w m w' E.
  unfold export_im_collection in E.
  apply bind_ret_inv in E as (items & w1 & Hi & E).
  unfold W.remote, W.tick, bind, lift in Hi. cbn in Hi.
  destruct (agg c prop (clock w)) as [its| |] eqn:Hagg; inversion Hi; subst its w1.
  clear Hi.
  apply bind_ret_inv in E as (ts & w2 & He & E).
  inversion E; subst m w2. clear E.
  exists items. split; [reflexivity|].
  destruct (heap w !! eo) as [d|] eqn:Hd.
  - apply (export_items_trace ds tcs c desc eo prop d) in He; [|exact Hd].
    destruct He as (Hh & Hl & Hc). cbn in Hh, Hl, Hc.
    rewrite Hc, Hl, Hh. repeat split; lia.
  - destruct items as [|idx items].
    + inversion He; subst. cbn. now rewrite app_nil_r.
    + cbn [export_items] in He.
      erewrite bind_raise in He by (apply copy_fail; exact Hd). discriminate He.
Qed.

Lemma export_im_collection_trace_witness :
  exists m w',
    export_im_collection Examples.render Examples.two_images Examples.build_task
      Examples.s2 (VStr "test_s2") 0 "system:index" None Examples.w_options
    = (Ret m, w') /\
    clock w' = 3%nat /\
    log w' = [exporting (VStr "20220108T100401"); exporting (VStr "20220103T100319")] /\
    length (heap w') = 3%nat.
Proof.
  eexists. eexists. split; [vm_compute; reflexivity|].
  destruct (export_im_collection_trace Examples.render Examples.two_images
              Examples.build_task Examples.s2 (VStr "test_s2") 0 "system:index" None
              Examples.w_options _ _ eq_refl)
    as (items & Hi & Hc & Hl & Hh).
  inversion Hi; subst items.
  split; [exact Hc|]. split; [exact Hl|]. exact (f_equal (@length dict) Hh).
Defined.

(** X15.  What each task is built from: when the call returns, the
    keyword arguments passed to [toCloudStorage] for an item agree with
    the caller's options on every key but [fileNamePrefix], and their
    [fileNamePrefix] is the item itself when the caller gave none and
    [<prefix>/<item>] when the caller gave one. *)
Theorem export_im_collection_keyword_arguments :
  forall ds agg tcs c description export_options property lg w m w' d,
    export_im_collection ds agg tcs c description export_options property lg w
    = (Ret m, w') ->
    heap w !! export_options = Some d ->
    exists items,
      agg c property (clock w) = Ret items /\
      Forall2
        (fun idx t =>
           exists kwargs t0,
             tcs (First (FilterMetadata c property "equals" idx)) description kwargs
             = Ret t0 /\
             t = mark_started t0 /\
             Dict.get "fileNamePrefix" kwargs
             = Some (match Dict.get "fileNamePrefix" d with
                     | None => idx
                     | Some old => VStr (format ds old +:+ "/" +:+ format ds idx)
                     end) /\
             forall k, k <> "fileNamePrefix" -> Dict.get k kwargs = Dict.get k d)
        items (tasks m).
Proof.
  intros ds agg tcs c desc eo prop lg w m w' d E Hd.
  unfold export_im_collection in E.
  apply bind_ret_inv in E as (items & w1 & Hi & E).
  apply getInfo_inv in Hi as [Hh1 Hi].
  apply bind_ret_inv in E as (ts & w2 & He & E).
  inversion E; subst m w2. clear E. cbn [tasks __init__].
  exists items. split; [now symmetry|].
  rewrite <- Hh1 in Hd.
  destruct (export_items_spec _ _ _ _ _ _ _ _ _ _ _ _ Hd He) as [_ Hts].
  destruct (Hts _ eq_refl) as (created & -> & Hall). cbn [app].
  eapply Forall2_impl; [exact Hall|].
  intros idx t (t0 & n & Ht0 & _ & ->).
  exists (item_options ds d idx), t0.
  split; [exact Ht0|]. split; [reflexivity|].
  split; [apply item_options_get_prefix|].
  intros k Hk. now apply item_options_get_other.
Qed.

Lemma export_im_collection_keyword_arguments_witness :
  exists m w',
    export_im_collection Examples.render Examples.two_images Examples.build_task
      Examples.s2 (VStr "test_s2") 0 "system:index" None Examples.w_options
    = (Ret m, w') /\
    exists items,
      Examples.two_images Examples.s2 "system:index" 0 = Ret items /\
      Forall2
        (fun idx t =>
           exists kwargs t0,
             Examples.build_task
               (First (FilterMetadata Examples.s2 "system:index" "equals" idx))
               (VStr "test_s2") kwargs = Ret t0 /\
             t = mark_started t0 /\
             Dict.get "fileNamePrefix" kwargs
             = Some (VStr ("woolpert_example" +:+ "/" +:+ format Examples.render idx)) /\
             forall k, k <> "fileNamePrefix" ->
                       Dict.get k kwargs = Dict.get k Examples.options)
        items (tasks m).
Proof.
  eexists. eexists. split; [vm_compute; reflexivity|].
  exact (export_im_collection_keyword_arguments Examples.render Examples.two_images
           Examples.build_task Examples.s2 (VStr "test_s2") 0 "system:index" None
           Examples.w_options _ _ Examples.options eq_refl eq_refl).
Defined.

Lemma getInfo_run {A} (answer : nat -> outcome A) (w : World) :
  W.remote answer w = (answer (clock w), W.set_clock (S (clock w)) w).
Proof.
  unfold W.remote, W.tick, bind, lift. cbn. destruct (answer (clock w)); reflexivity.
Qed.

Lemma item_options_mem ds d idx k :
  k <> "fileNamePrefix" -> Dict.mem k (item_options ds d idx) = Dict.mem k d.
Proof. intros Hk. unfold Dict.mem. now rewrite item_options_get_other. Qed.

(** X16.  An empty collection: the call returns a manager without tasks
    and with empty paths, after the one [getInfo]; it prints nothing,
    starts nothing and does not look at [export_options] at all. *)
Theorem export_im_collection_empty :
  forall ds agg tcs c description export_options property lg w,
    agg c property (clock w) = Ret [] ->
    export_im_collection ds agg tcs c description export_options property lg w
    = (Ret {| tasks := []; logger := lg; paths := [] |}, W.set_clock (S (clock w)) w).
Proof.
  intros ds agg tcs c desc eo prop lg w H.
  unfold export_im_collection.
  erewrite bind_run by (rewrite getInfo_run, H; reflexivity).
  reflexivity.
Qed.

Lemma export_im_collection_empty_witness :
  export_im_collection Examples.render (fun _ _ _ => Ret []) Examples.build_task
    Examples.s2 (VStr "test_s2") 7 "system:index" None Examples.w0
  = (Ret {| tasks := []; logger := None; paths := [] |},
     W.set_clock 1 Examples.w0).
Proof.
  exact (export_im_collection_empty Examples.render (fun _ _ _ => Ret [])
           Examples.build_task Examples.s2 (VStr "test_s2") 7 "system:index" None
           Examples.w0 eq_refl).
Defined.

(** X17.  Options that repeat a named argument: with [image] or
    [description] among the caller's options and a collection that is not
    empty, the call ends with the [TypeError] of the first
    [toCloudStorage(...)] call.  The client library is not reached, no
    task is built or started, nothing is printed; one copy of the options
    has been made. *)
Theorem export_im_collection_repeated_argument :
  forall ds agg tcs c description export_options property lg w d idx items,
    heap w !! export_options = Some d ->
    Dict.mem "image" d || Dict.mem "description" d = true ->
    agg c property (clock w) = Ret (idx :: items) ->
    export_im_collection ds agg tcs c description export_options property lg w
    = (Raise TypeError,
       {| clock := S (clock w);
          heap := heap w ++ [item_options ds d idx];
          log := log w |}).
Proof.
  intros ds agg tcs c desc eo prop lg w d idx items Hd Hmem Hagg.
  unfold export_im_collection.
  erewrite bind_run by (rewrite getInfo_run, Hagg; reflexivity).
  erewrite bind_raise; [reflexivity|].
  rewrite (export_items_cons _ _ _ _ _ _ _ _ _ _ d) by exact Hd.
  erewrite bind_raise; [reflexivity|].
  unfold call_toCloudStorage.
  rewrite !item_options_mem by discriminate. rewrite Hmem. reflexivity.
Qed.

Lemma export_im_collection_repeated_argument_witness :
  let d := [("description", VStr "mine"); ("bucket", VStr "crop-identification")] in
  let w := {| clock := 0; heap := [d]; log := [] |} in
  export_im_collection Examples.render Examples.two_images Examples.build_task
    Examples.s2 (VStr "test_s2") 0 "system:index" None w
  = (Raise TypeError,
     {| clock := 1;
        heap := [d; item_options Examples.render d (VStr "20220103T100319")];
        log := [] |}).
Proof.
  intros d w.
  exact (export_im_collection_repeated_argument Examples.render Examples.two_images
           Examples.build_task Examples.s2 (VStr "test_s2") 0 "system:index" None w d
           _ _ eq_refl eq_refl eq_refl).
Defined.

(** An item whose task is built and whose [start()] goes through
    whenever it is called. *)
Definition starts (ds : dict -> string) (tcs : Image -> pyval -> dict -> outcome Task)
    (c : ImageCollection) (desc : pyval) (prop : string) (d : dict) (idx : pyval) : Prop :=
  exists t0,
    tcs (First (FilterMetadata c prop "equals" idx)) desc (item_options ds d idx) = Ret t0
    /\ forall n, start t0 n = Ret tt.

Lemma export_items_start_fails ds tcs c desc eo prop d idx rest t e :
  Dict.mem "image" d || Dict.mem "description" d = false ->
  tcs (First (FilterMetadata c prop "equals" idx)) desc (item_options ds d idx) = Ret t ->
  forall before acc w,
    heap w !! eo = Some d ->
    Forall (starts ds tcs c desc prop d) before ->
    start t (length before + clock w) = Raise e ->
    export_items ds tcs (before ++ idx :: rest) c desc eo prop acc w
    = (Raise e,
       {| clock := S (length before + clock w);
          heap := heap w ++ map (item_options ds d) (before ++ [idx]);
          log := rev (map exporting before) ++ log w |}).
Proof.
  intros Hmem Ht.
  assert (Hcall : forall i (w : World),
             call_toCloudStorage tcs (First (FilterMetadata c prop "equals" i)) desc
               (item_options ds d i) w
             = (tcs (First (FilterMetadata c prop "equals" i)) desc
                  (item_options ds d i), w)).
  { intros i w. apply call_toCloudStorage_run.
    rewrite !item_options_mem by discriminate. exact Hmem. }
  induction before as [|a before IH]; intros acc w Hd Hok Hst.
  - cbn [app]. rewrite (export_items_cons _ _ _ _ _ _ _ _ _ _ d) by exact Hd.
    erewrite bind_run by (rewrite Hcall, Ht; reflexivity).
    erewrite bind_raise; [reflexivity|].
    rewrite task_start_run. cbn in *. rewrite Hst. reflexivity.
  - inversion Hok as [|x l (t0 & Ht0 & Hs0) Hok']; subst.
    cbn [app]. rewrite (export_items_cons _ _ _ _ _ _ _ _ _ _ d) by exact Hd.
    erewrite bind_run by (rewrite Hcall, Ht0; reflexivity).
    erewrite bind_run.
    2:{ rewrite task_start_run, Hs0. reflexivity. }
    erewrite bind_run by reflexivity.
    rewrite IH.
    + cbn. f_equal. f_equal.
      * lia.
      * now rewrite <- app_assoc.
      * now rewrite <- app_assoc.
    + cbn. now apply lookup_app_l_Some.
    + exact Hok'.
    + cbn. replace (length before + S (clock w))%nat
        with (length (a :: before) + clock w)%nat by (cbn; lia).
      exact Hst.
Qed.

(** X18.  A [start()] that fails part-way: the call ends with that
    exception and hands no manager back, although the tasks of the items
    before it have been started and announced.  Their handles are lost to
    the caller. *)
Theorem export_im_collection_start_fails :
  forall ds agg tcs c description export_options property lg w d before idx rest t e,
    heap w !! export_options = Some d ->
    Dict.mem "image" d || Dict.mem "description" d = false ->
    agg c property (clock w) = Ret (before ++ idx :: rest) ->
    Forall (starts ds tcs c description property d) before ->
    tcs (First (FilterMetadata c property "equals" idx)) description
      (item_options ds d idx) = Ret t ->
    start t (S (length before + clock w)) = Raise e ->
    export_im_collection ds agg tcs c description export_options property lg w
    = (Raise e,
       {| clock := S (S (length before + clock w));
          heap := heap w ++ map (item_options ds d) (before ++ [idx]);
          log := rev (map exporting before) ++ log w |}).
Proof.
  intros ds agg tcs c desc eo prop lg w d before idx rest t e Hd Hmem Hagg Hok Ht Hst.
  unfold export_im_collection.
  erewrite bind_run by (rewrite getInfo_run, Hagg; reflexivity).
  erewrite bind_raise; [reflexivity|].
  rewrite (export_items_start_fails ds tcs c desc eo prop d idx rest t e Hmem Ht
             before [] (W.set_clock (S (clock w)) w) Hd Hok).
  - cbn. f_equal. f_equal. lia.
  - cbn. replace (length before + S (clock w))%nat
      with (S (length before + clock w)) by lia.
    exact Hst.
Qed.

Module Builders.

(** A client library whose second image cannot be started. *)
Definition second_fails (im : Image) (_ : pyval) (kwargs : dict) : outcome Task :=
  Ret {| id := ""; task_type := EXPORT_IMAGE; config := VDict kwargs;
         started := false;
         active := fun _ => Ret true;
         status := fun _ => Ret (VDict [("state", VStr "READY")]);
         start := fun _ =>
                    match im with
                    | First (FilterMetadata _ _ _ idx) =>
                        if Py.eq_str idx "20220108T100401"
                        then Raise (OtherError "EEException" (MsgText "quota exceeded"))
                        else Ret tt
                    | First (Collection _) => Ret tt
                    end |}.

(** A client library whose tasks have ended by the time they are polled
    and report it in a mapping. *)
Definition finished (_ : Image) (_ : pyval) (kwargs : dict) : outcome Task :=
  Ret {| id := ""; task_type := EXPORT_IMAGE;
         config :=
           VDict [("fileExportOptions",
                   VDict [("fileFormat", VStr "GEO_TIFF");
                          ("cloudStorageDestination",
                           VDict [("filenamePrefix",
                                   match Dict.get "fileNamePrefix" kwargs with
                                   | Some p => p
                                   | None => VNone
                                   end)])])];
         started := false;
         active := fun _ => Ret false;
         status := fun _ => Ret (VDict [("state", VStr "COMPLETED")]);
         start := fun _ => Ret tt |}.

End Builders.

Lemma export_im_collection_start_fails_witness :
  export_im_collection Examples.render Examples.two_images Builders.second_fails
    Examples.s2 (VStr "test_s2") 0 "system:index" None Examples.w_options
  = (Raise (OtherError "EEException" (MsgText "quota exceeded")),
     {| clock := 3;
        heap := Examples.options
                  :: map (item_options Examples.render Examples.options)
                       [VStr "20220103T100319"; VStr "20220108T100401"];
        log := [exporting (VStr "20220103T100319")] |}).
Proof.
  refine (export_im_collection_start_fails Examples.render Examples.two_images
            Builders.second_fails Examples.s2 (VStr "test_s2") 0 "system:index" None
            Examples.w_options Examples.options [VStr "20220103T100319"]
            (VStr "20220108T100401") [] _ _ eq_refl eq_refl eq_refl _ eq_refl eq_refl).
  repeat constructor. eexists. split; [reflexivity|]. intros n. reflexivity.
Defined.

(** ** The script *)

Section Script.

Variable uniform01 : nat -> Q.
Variable dict_str : dict -> string.
Variable aggregate_array_getInfo : ImageCollection -> string -> nat -> outcome (list pyval).
Variable toCloudStorage : Image -> pyval -> dict -> outcome Task.

(** The credentials object of [google.auth]. *)
Variable Credentials : Type.

(** [google.auth.default()] when called at a given tick: the pair it
    returns. *)
Variable google_auth_default : nat -> outcome (Credentials * pyval).

(** [ee.Initialize(credentials, project=project)] when called at a
    given tick. *)
Variable ee_Initialize : Credentials -> pyval -> nat -> outcome unit.

(** [str(paths)] of a list, as [print] renders it. *)
Variable list_str : list pyval -> string.

(** [initialize_gee], lines 7-10. *)
Definition initialize_gee : M World unit :=
  let* pair := W.remote google_auth_default in
  let credentials := fst pair in
  let project := snd pair in
  W.emit (EvPrint (MsgText ("Initializing GEE with project " +:+ format dict_str project))) ;;
  W.remote (ee_Initialize credentials project).

(** A dict literal: a new heap cell. *)
Definition new_dict (d : dict) : M World nat :=
  let* h := gets heap in
  modify (W.set_heap (h ++ [d])) ;;
  ret (length h).

(** A method call on a manager held in a local variable: the method runs
    with the manager as its [self]; the variable then holds the manager as
    the method left it. *)
Definition call_method {A} (m : TasksManager) (method : M Obj A)
  : M World (A * TasksManager) :=
  fun w =>
    let (r, o) := method {| self := m; world := w |} in
    (match r with
     | Ret a => Ret (a, self o)
     | Raise e => Raise e
     | Hang => Hang
     end, world o).

(** The script, lines 100-129.  [collection] is the image collection
    built in lines 105-111 and [options] the dict literal of lines
    118-125: both are made of client-library objects and numbers, and are
    taken as given.  [fuel] bounds the passes of [poll]. *)
Definition main (collection : ImageCollection) (options : dict) (fuel : nat)
  : M World unit :=
  initialize_gee ;;
  let* export_options := new_dict options in
  let* tasks_manager :=
    export_im_collection dict_str aggregate_array_getInfo toCloudStorage
      collection (VStr "test_s2") export_options "system:index" None in
  let* polled := call_method tasks_manager (poll uniform01 fuel 5 2) in
  let tasks_manager := snd polled in
  let* resolved := call_method tasks_manager (get_export_destination dict_str None) in
  let tasks_manager := snd resolved in
  W.emit (EvPrint (MsgText (list_str (paths tasks_manager)))).

End Script.

Lemma call_method_run {A} (m : TasksManager) (method : M Obj A) w :
  call_method m method w
  = (match fst (method {| self := m; world := w |}) with
     | Ret a => Ret (a, self (snd (method {| self := m; world := w |})))
     | Raise e => Raise e
     | Hang => Hang
     end, world (snd (method {| self := m; world := w |}))).
Proof.
  unfold call_method. destruct (method {| self := m; world := w |}) as [r o].
  reflexivity.
Qed.

(** X19.  The script does not look at what [poll] returned.  Once the
    setup and the exports have gone through and [poll] has returned,
    [True] or [False], the script resolves the paths of all tasks and ends
    the way [get_export_destination] ends; when that returns, the last
    thing printed is the list of one path per task. *)
Theorem main_ignores_poll_verdict :
  forall u ds agg tcs C auth init ls collection options fuel w w1 m w2 b o3,
    initialize_gee ds C auth init w = (Ret tt, w1) ->
    export_im_collection ds agg tcs collection (VStr "test_s2") (length (heap w1))
      "system:index" None (W.set_heap (heap w1 ++ [options]) w1) = (Ret m, w2) ->
    poll u fuel 5 2 {| self := m; world := w2 |} = (Ret b, o3) ->
    let resolved := get_export_destination ds None {| self := m; world := w2 |} in
    let run := main u ds agg tcs C auth init ls collection options fuel w in
    fst run = fst resolved /\
    (fst resolved = Ret tt ->
     length (paths (self (snd resolved))) = length (tasks m) /\
     snd run
     = W.set_log (EvPrint (MsgText (ls (paths (self (snd resolved))))) :: log (world o3))
         (world o3)).
Proof.
  intros u ds agg tcs C auth init ls collection options fuel w w1 m w2 b o3
    Hinit Hexp Hpoll resolved run.
  assert (Hself3 : self o3 = m).
  { apply poll_loop_same_self in Hpoll. exact Hpoll. }
  assert (Hpaths : paths m = []).
  { unfold export_im_collection in Hexp.
    apply bind_ret_inv in Hexp as (items & wa & _ & Hexp).
    apply bind_ret_inv in Hexp as (ts & wb & _ & Hexp).
    inversion Hexp. reflexivity. }
  pose proof (get_export_destination_run ds None {| self := m; world := w2 |}) as Hr2.
  pose proof (get_export_destination_run ds None {| self := m; world := world o3 |}) as Hr3.
  cbn [with_tasks self] in Hr2, Hr3.
  destruct (for_each_destination_self ds (tasks m)
              {| self := m; world := world o3 |} {| self := m; world := w2 |} eq_refl)
    as (Hfst & Hsnd).
  rewrite <- Hr2, <- Hr3 in Hfst, Hsnd. fold resolved in Hfst, Hsnd.
  assert (Hrun : run =
            (let r := get_export_destination ds None {| self := m; world := world o3 |} in
             match fst r with
             | Ret _ => (Ret tt,
                         W.set_log (EvPrint (MsgText (ls (paths (self (snd r)))))
                                      :: log (world (snd r))) (world (snd r)))
             | Raise e => (Raise e, world (snd r))
             | Hang => (Hang, world (snd r))
             end)).
  { subst run. unfold main.
    erewrite bind_run by exact Hinit.
    erewrite bind_run by reflexivity.
    erewrite bind_run by exact Hexp.
    erewrite bind_run.
    2:{ rewrite call_method_run, Hpoll. reflexivity. }
    cbn [snd fst]. rewrite Hself3.
    unfold bind. rewrite call_method_run. cbv zeta.
    destruct (get_export_destination ds None {| self := m; world := world o3 |})
      as [[[]|e|] o4]; reflexivity. }
  rewrite Hrun. cbv zeta. split.
  - rewrite <- Hfst.
    destruct (fst (get_export_destination ds None {| self := m; world := world o3 |}))
      as [[]|e|]; reflexivity.
  - intros Hret. rewrite Hret in Hfst. clear Hret.
    destruct (get_export_destination ds None {| self := m; world := world o3 |})
      as [r o4] eqn:Hg.
    cbn [fst snd] in Hfst, Hsnd |- *. subst r.
    pose proof (for_each_destination_uniform ds (tasks m)
                  {| self := m; world := world o3 |}
                  {| self := m; world := world o3 |}) as Hu.
    rewrite get_export_destination_run in Hg. cbn [with_tasks self] in Hg.
    rewrite Hg in Hu. cbv beta iota in Hu. destruct Hu as (ps & Hlen & -> & _).
    cbn [O.extend O.set_self self world paths] in *.
    split.
    + rewrite <- Hsnd. cbn. now rewrite Hpaths.
    + rewrite <- Hsnd. reflexivity.
Qed.

Lemma main_ignores_poll_verdict_witness :
  let auth := fun _ : nat => Ret (tt, VStr "crop-project") in
  let init := fun (_ : unit) (_ : pyval) (_ : nat) => Ret tt in
  let ls := fun _ : list pyval => "[...]" in
  let run := main Examples.half Examples.render Examples.two_images Builders.finished
               unit auth init ls Examples.s2 Examples.options 9 Examples.w0 in
  exists m w2 o3,
    poll Examples.half 9 5 2 {| self := m; world := w2 |} = (Ret false, o3) /\
    let resolved := get_export_destination Examples.render None
                      {| self := m; world := w2 |} in
    fst run = Ret tt /\
    paths (self (snd resolved))
    = [VStr "woolpert_example/20220103T100319.tif";
       VStr "woolpert_example/20220108T100401.tif"] /\
    log (snd run) = EvPrint (MsgText "[...]") :: log (world o3).
Proof.
  intros auth init ls run.
  assert (Hex : exists m w2,
             export_im_collection Examples.render Examples.two_images Builders.finished
               Examples.s2 (VStr "test_s2") 0 "system:index" None
               {| clock := 2; heap := [Examples.options];
                  log := [EvPrint (MsgText "Initializing GEE with project crop-project")] |}
             = (Ret m, w2) /\
             paths (self (snd (get_export_destination Examples.render None
                                 {| self := m; world := w2 |})))
             = [VStr "woolpert_example/20220103T100319.tif";
                VStr "woolpert_example/20220108T100401.tif"] /\
             fst (get_export_destination Examples.render None
                    {| self := m; world := w2 |}) = Ret tt).
  { eexists. eexists. split; [vm_compute; reflexivity|]. split; reflexivity. }
  destruct Hex as (m & w2 & Hexp & Hpaths & Hret).
  assert (Hpoll : exists o3, poll Examples.half 9 5 2 {| self := m; world := w2 |}
                             = (Ret false, o3)).
  { inversion Hexp; subst m w2. eexists. vm_compute. reflexivity. }
  destruct Hpoll as (o3 & Hpoll).
  exists m, w2, o3. split; [exact Hpoll|]. cbv zeta.
  destruct (main_ignores_poll_verdict Examples.half Examples.render Examples.two_images
              Builders.finished unit auth init ls Examples.s2 Examples.options 9
              Examples.w0 _ m w2 false o3 eq_refl Hexp Hpoll) as (Hfst & Hrest).
  fold run in Hfst, Hrest.
  split; [now rewrite Hfst|]. split; [exact Hpaths|].
  destruct (Hrest Hret) as (_ & Hsnd). now rewrite Hsnd.
Defined.
